(** * cairo-vm-ts: the bitwise builtin handler and the instruction decoder

    A shallow embedding of [bitwiseHandler.get] (builtins/bitwise.ts) and
    of the class [Instruction] with its decoder [decodeInstruction],
    followed by the properties of both that the specification states.

    JavaScript [bigint] values are modelled by [Z]: [>>] on a bigint is the
    arithmetic shift [Z.shiftr] and [&], [|], [^] are the two's complement
    operations [Z.land], [Z.lor], [Z.lxor].  A JavaScript number that holds
    an integer is modelled by that integer, and the rounding of the
    additions and subtractions of doubles is written out.  A sparse
    JavaScript array is a finite map from its integer keys to values, a hole
    being an absent key. *)

From Stdlib Require Import ZArith Zbitwise Lia.
From stdpp Require Import base option strings gmap.

Local Open Scope Z_scope.

(** ** Completions

    A call either returns a value or throws. *)

Inductive Completion (E A : Type) : Type :=
| Normal (a : A)
| Throw (e : E).

Arguments Normal {E A} a.
Arguments Throw {E A} e.

#[global] Instance Completion_bind {E} : MBind (Completion E) :=
  fun A B f c => match c with Normal a => f a | Throw e => Throw e end.

(** ** The enumerations of the instruction word *)

Module Register.
Inductive t : Set := Pc | Ap | Fp.
End Register.

Module Op1Src.
Inductive t : Set := Pc | Ap | Fp | Op0.
End Op1Src.

Module ResLogic.
Inductive t : Set := Op1 | Add | Mul | Unused.

(** The numeric values of the enumeration, one bit each. *)
Definition value (r : t) : Z :=
  match r with
  | Op1 => Z.shiftl 1 1
  | Add => Z.shiftl 1 2
  | Mul => Z.shiftl 1 3
  | Unused => Z.shiftl 1 4
  end.
End ResLogic.

Module PcUpdate.
Inductive t : Set := Regular | Jump | JumpRel | Jnz.

Definition eqb (a b : t) : bool :=
  match a, b with
  | Regular, Regular | Jump, Jump | JumpRel, JumpRel | Jnz, Jnz => true
  | _, _ => false
  end.
End PcUpdate.

Module ApUpdate.
Inductive t : Set := Ap | AddRes | Add1 | Add2.
End ApUpdate.

Module FpUpdate.
Inductive t : Set := Fp | ApPlus2 | Dst.
End FpUpdate.

Module Opcode.
Inductive t : Set := NoOp | Call | Ret | AssertEq.

(** The numeric values of the enumeration, one bit each. *)
Definition value (o : t) : Z :=
  match o with
  | NoOp => Z.shiftl 1 5
  | Call => Z.shiftl 1 6
  | Ret => Z.shiftl 1 7
  | AssertEq => Z.shiftl 1 8
  end.

Definition eqb (a b : t) : bool :=
  match a, b with
  | NoOp, NoOp | Call, Call | Ret, Ret | AssertEq, AssertEq => true
  | _, _ => false
  end.
End Opcode.

(** The errors of errors/instruction that the decoder throws. *)
Inductive InstructionDecodeError : Set :=
| HighBitSetError
| InvalidApUpdate
| InvalidDstRegister
| InvalidOp0Register
| InvalidOp1Register
| InvalidOpcode
| InvalidPcUpdate
| InvalidResLogic.

(** ** The class [Instruction] *)

Module Instruction.

Record t : Set := mk {
  dstOffset : Z;
  op0Offset : Z;
  op1Offset : Z;
  dstRegister : Register.t;
  op0Register : Register.t;
  op1Register : Op1Src.t;
  resLogic : ResLogic.t;
  pcUpdate : PcUpdate.t;
  apUpdate : ApUpdate.t;
  fpUpdate : FpUpdate.t;
  opcode : Opcode.t
}.

(** [static readonly BIAS = BigInt(2 ** 15)] *)
Definition BIAS : Z := 2 ^ 15.

(** [fromBiased(value) = Number(value - BIAS)].  The conversion to a
    JavaScript number is exact on the values the decoder passes, which lie
    in [0, 2^16). *)
Definition fromBiased (value : Z) : Z := value - BIAS.

(** The flag fields, as the local constants of [decodeInstruction]. *)
Definition flags (encodedInstruction : Z) : Z := Z.shiftr encodedInstruction 48.

Definition dstRegisterFlag (w : Z) : Z := Z.land (flags w) 1.
Definition op0RegisterFlag (w : Z) : Z := Z.land (Z.shiftr (flags w) 1) 1.
Definition op1RegisterFlag (w : Z) : Z := Z.land (Z.shiftr (flags w) 2) 7.
Definition resLogicFlag (w : Z) : Z := Z.land (Z.shiftr (flags w) 5) 3.
Definition pcUpdateFlag (w : Z) : Z := Z.land (Z.shiftr (flags w) 7) 7.
Definition apUpdateFlag (w : Z) : Z := Z.land (Z.shiftr (flags w) 10) 3.
Definition opcodeFlag (w : Z) : Z := Z.land (Z.shiftr (flags w) 12) 7.

(** The [switch] statements of [decodeInstruction], in source order. *)

Definition switchDstRegister (flag : Z) : Completion InstructionDecodeError Register.t :=
  match flag with
  | 0 => Normal Register.Ap
  | 1 => Normal Register.Fp
  | _ => Throw InvalidDstRegister
  end.

Definition switchOp0Register (flag : Z) : Completion InstructionDecodeError Register.t :=
  match flag with
  | 0 => Normal Register.Ap
  | 1 => Normal Register.Fp
  | _ => Throw InvalidOp0Register
  end.

Definition switchOp1Register (flag : Z) : Completion InstructionDecodeError Op1Src.t :=
  match flag with
  | 0 => Normal Op1Src.Op0
  | 1 => Normal Op1Src.Pc
  | 2 => Normal Op1Src.Fp
  | 4 => Normal Op1Src.Ap
  | _ => Throw InvalidOp1Register
  end.

Definition switchPcUpdate (flag : Z) : Completion InstructionDecodeError PcUpdate.t :=
  match flag with
  | 0 => Normal PcUpdate.Regular
  | 1 => Normal PcUpdate.Jump
  | 2 => Normal PcUpdate.JumpRel
  | 4 => Normal PcUpdate.Jnz
  | _ => Throw InvalidPcUpdate
  end.

Definition switchResLogic (flag : Z) (pcUpdate : PcUpdate.t)
  : Completion InstructionDecodeError ResLogic.t :=
  match flag with
  | 0 => Normal (if PcUpdate.eqb pcUpdate PcUpdate.Jnz
                 then ResLogic.Unused else ResLogic.Op1)
  | 1 => Normal ResLogic.Add
  | 2 => Normal ResLogic.Mul
  | _ => Throw InvalidResLogic
  end.

Definition switchOpcode (flag : Z) : Completion InstructionDecodeError Opcode.t :=
  match flag with
  | 0 => Normal Opcode.NoOp
  | 1 => Normal Opcode.Call
  | 2 => Normal Opcode.Ret
  | 4 => Normal Opcode.AssertEq
  | _ => Throw InvalidOpcode
  end.

Definition switchApUpdate (flag : Z) (opcode : Opcode.t)
  : Completion InstructionDecodeError ApUpdate.t :=
  match flag with
  | 0 => Normal (if Opcode.eqb opcode Opcode.Call
                 then ApUpdate.Add2 else ApUpdate.Ap)
  | 1 => Normal ApUpdate.AddRes
  | 2 => Normal ApUpdate.Add1
  | _ => Throw InvalidApUpdate
  end.

Definition switchFpUpdate (opcode : Opcode.t) : FpUpdate.t :=
  match opcode with
  | Opcode.Call => FpUpdate.ApPlus2
  | Opcode.Ret => FpUpdate.Dst
  | _ => FpUpdate.Fp
  end.

(** [static decodeInstruction(encodedInstruction: bigint): Instruction] *)
Definition decodeInstruction (encodedInstruction : Z)
  : Completion InstructionDecodeError t :=
  if negb (Z.shiftr encodedInstruction 63 =? 0) then Throw HighBitSetError else
  let dstOffset := fromBiased (Z.land encodedInstruction 0xffff) in
  let op0Offset := fromBiased (Z.land (Z.shiftr encodedInstruction 16) 0xffff) in
  let op1Offset := fromBiased (Z.land (Z.shiftr encodedInstruction 32) 0xffff) in
  dstRegister ← switchDstRegister (dstRegisterFlag encodedInstruction);
  op0Register ← switchOp0Register (op0RegisterFlag encodedInstruction);
  op1Register ← switchOp1Register (op1RegisterFlag encodedInstruction);
  pcUpdate ← switchPcUpdate (pcUpdateFlag encodedInstruction);
  resLogic ← switchResLogic (resLogicFlag encodedInstruction) pcUpdate;
  opcode ← switchOpcode (opcodeFlag encodedInstruction);
  apUpdate ← switchApUpdate (apUpdateFlag encodedInstruction) opcode;
  let fpUpdate := switchFpUpdate opcode in
  Normal (mk dstOffset op0Offset op1Offset dstRegister op0Register
             op1Register resLogic pcUpdate apUpdate fpUpdate opcode).

(** [size()]: 2 when an immediate value follows the instruction. *)
Definition size (i : t) : Z :=
  match op1Register i with Op1Src.Pc => 2 | _ => 1 end.

(** The encodings a three-bit field may hold: no bit or exactly one of its
    bits set. *)
Definition oneHot (flag : Z) : bool :=
  (flag =? 0) || (flag =? 1) || (flag =? 2) || (flag =? 4).

(** The error [decodeInstruction] stops at on a word below [2^63]: the
    switches that can throw are run in the order op1, pc update, res logic,
    opcode, ap update, and the first illegal field decides. *)
Definition firstInvalid (w : Z) : option InstructionDecodeError :=
  if negb (oneHot (op1RegisterFlag w)) then Some InvalidOp1Register
  else if negb (oneHot (pcUpdateFlag w)) then Some InvalidPcUpdate
  else if resLogicFlag w =? 3 then Some InvalidResLogic
  else if negb (oneHot (opcodeFlag w)) then Some InvalidOpcode
  else if apUpdateFlag w =? 3 then Some InvalidApUpdate
  else None.

(** Assembling a word from its three biased offsets and its flags; used to
    write concrete instruction words down field by field. *)
Definition word (dstBiased op0Biased op1Biased flagBits : Z) : Z :=
  Z.lor dstBiased
    (Z.lor (Z.shiftl op0Biased 16)
       (Z.lor (Z.shiftl op1Biased 32) (Z.shiftl flagBits 48))).

End Instruction.

(** ** Segment values

    [SegmentValue] is the union of [Felt] and [Relocatable]
    (primitives/segmentValue); the test [isFelt] of the handler is the match
    on its constructor.  The class [Felt] (primitives/felt) is not part of
    the sources at hand: the handler is embedded over any implementation of
    it, given by its constructor, which may throw, and by [toBigInt]. *)

Module Relocatable.
(** Modelled from the spec: the class Relocatable of primitives/relocatable,
    an address made of a segment id and an offset. *)
Record t : Set := mk { segmentId : Z; offset : Z }.
End Relocatable.

Inductive SegmentValue (Felt : Type) : Type :=
| FeltV (f : Felt)
| RelocatableV (r : Relocatable.t).

Arguments FeltV {Felt} f.
Arguments RelocatableV {Felt} r.

(** What a builtin read can throw: [UndefinedValue] (errors/builtins) with
    the offset it is given, an integer or NaN; [ExpectedFelt]
    (errors/virtualMachine); the classes of errors/memory; [FeltError] for
    an exception of the constructor of [Felt]; and the [TypeError] of
    JavaScript. *)
Inductive Exception (Felt : Type) : Type :=
| UndefinedValue (offset : Z)
| UndefinedValueNaN
| ExpectedFelt
| InconsistentMemory (address : Relocatable.t) (oldValue newValue : SegmentValue Felt)
| SegmentOutOfBounds (segmentId segmentNumber : Z)
| InstructionError
| FeltError
| TypeError.

Arguments UndefinedValue {Felt} offset.
Arguments UndefinedValueNaN {Felt}.
Arguments ExpectedFelt {Felt}.
Arguments InconsistentMemory {Felt} address oldValue newValue.
Arguments SegmentOutOfBounds {Felt} segmentId segmentNumber.
Arguments InstructionError {Felt}.
Arguments FeltError {Felt}.
Arguments TypeError {Felt}.

(** The key [prop] of a property access, by what [Number(prop)] makes of
    it.  A string key gives a number: an integer ([Index], the integer
    being a double), a finite number that is no integer ([Fraction floor a
    b] is the number floor + a / (a + b), strictly between floor and
    floor + 1), an infinity, or NaN ([Named]).  On a symbol key the
    coercion throws. *)
Inductive Property : Set :=
| Index (offset : Z)
| Fraction (floor : Z) (a b : positive)
| Infinite (negative : bool)
| Named (name : string)
| Symbol.

(** The properties of the array under the number keys that are no
    integers: the handler reads them and never writes them. *)
Inductive OtherKey : Set :=
| KeyFraction (floor : Z) (a b : positive)
| KeyInfinite (negative : bool)
| KeyNaN.

(** What the [get] trap returns: an element of the array ([None] is
    [undefined]), or what [Reflect.get] returns. *)
Inductive Value (Felt JsValue : Type) : Type :=
| Element (v : option (SegmentValue Felt))
| Reflected (v : JsValue).

Arguments Element {Felt JsValue} v.
Arguments Reflected {Felt JsValue} v.

(** The double nearest to an integer, ties going to the even significand
    of 53 bits: the result of an addition or subtraction of doubles whose
    exact result is that integer.  Integers of magnitude below 2^53 are
    doubles.  (The results the handler computes never exceed its key in
    magnitude, so that no infinity arises.) *)
Definition roundDouble (z : Z) : Z :=
  if Z.abs z <? 2 ^ 53 then z
  else
    let e := Z.log2 (Z.abs z) - 52 in
    let q := Z.abs z / 2 ^ e in
    let r := Z.abs z mod 2 ^ e in
    let half := 2 ^ (e - 1) in
    let m := if r <? half then q
             else if half <? r then q + 1
             else if Z.even q then q else q + 1 in
    Z.sgn z * (m * 2 ^ e).

(** ** The bitwise builtin handler *)

Module bitwiseHandler.

Definition cellsPerBitwise : Z := 5.
Definition inputCellsPerBitwise : Z := 2.

(** The [switch (bitwiseIndex)] of the handler: the integer an output cell
    is computed from, [None] where no case applies. *)
Definition switchBitwiseIndex (bitwiseIndex x y : Z) : option Z :=
  match bitwiseIndex with
  | 2 => Some (Z.land x y)
  | 3 => Some (Z.lxor x y)
  | 4 => Some (Z.lor x y)
  | _ => None
  end.

Section Handler.

Variable Felt : Type.
(** [new Felt(n)], [None] when the constructor throws. *)
Variable Felt_new : Z -> option Felt.
Variable toBigInt : Felt -> Z.
(** [Reflect.get(target, prop)] on a key that is no number: a property of
    the array, such as its length, as the array is at the call. *)
Variable JsValue : Type.
Variable Reflect_get : gmap Z (SegmentValue Felt) -> string -> JsValue.
(** [target[key]] for a number key that is no integer. *)
Variable other : OtherKey -> option (SegmentValue Felt).

(** The handler on a key whose number is the integer [offset].  The array
    [target] is mutated by the call: the function returns the completion
    together with the array afterwards.  [%] is exact on doubles and keeps
    the sign of the offset; the subtraction and the addition are rounded. *)
Definition getIndex (target : gmap Z (SegmentValue Felt)) (offset : Z)
  : Completion (Exception Felt) (Value Felt JsValue) * gmap Z (SegmentValue Felt) :=
  let bitwiseIndex := Z.rem offset cellsPerBitwise in
  if bitwiseIndex <? inputCellsPerBitwise
  then (Normal (Element (target !! offset)), target)
  else
    let xOffset := roundDouble (offset - bitwiseIndex) in
    match target !! xOffset with
    | None => (Throw (UndefinedValue xOffset), target)
    | Some (RelocatableV _) => (Throw ExpectedFelt, target)
    | Some (FeltV xValue) =>
      let x := toBigInt xValue in
      let yOffset := roundDouble (xOffset + 1) in
      match target !! yOffset with
      | None => (Throw (UndefinedValue yOffset), target)
      | Some (RelocatableV _) => (Throw ExpectedFelt, target)
      | Some (FeltV yValue) =>
        let y := toBigInt yValue in
        match switchBitwiseIndex bitwiseIndex x y with
        | Some n =>
          match Felt_new n with
          | Some f =>
            let target' := <[offset := FeltV f]> target in
            (Normal (Element (target' !! offset)), target')
          | None => (Throw FeltError, target)
          end
        | None => (Normal (Element (target !! offset)), target)
        end
      end
    end.

(** The handler on the number floor + a / (a + b).  Below zero the
    remainder is negative; from zero on it is floor mod 5 plus the
    fraction, which is below 2 exactly when floor mod 5 is, and
    [offset - bitwiseIndex] is the integer floor - floor mod 5.  No case of
    the switch applies to a remainder that is no integer. *)
Definition getFraction (target : gmap Z (SegmentValue Felt))
    (floor : Z) (a b : positive)
  : Completion (Exception Felt) (Value Felt JsValue) * gmap Z (SegmentValue Felt) :=
  if (floor <? 0) || (floor mod cellsPerBitwise <? inputCellsPerBitwise)
  then (Normal (Element (other (KeyFraction floor a b))), target)
  else
    let xOffset := roundDouble (floor - floor mod cellsPerBitwise) in
    match target !! xOffset with
    | None => (Throw (UndefinedValue xOffset), target)
    | Some (RelocatableV _) => (Throw ExpectedFelt, target)
    | Some (FeltV _) =>
      let yOffset := roundDouble (xOffset + 1) in
      match target !! yOffset with
      | None => (Throw (UndefinedValue yOffset), target)
      | Some (RelocatableV _) => (Throw ExpectedFelt, target)
      | Some (FeltV _) =>
        (Normal (Element (other (KeyFraction floor a b))), target)
      end
    end.

(** The handler on an infinity: the remainder is NaN, which is not below
    2, and [xOffset] and [yOffset] are NaN. *)
Definition getInfinite (target : gmap Z (SegmentValue Felt)) (negative : bool)
  : Completion (Exception Felt) (Value Felt JsValue) * gmap Z (SegmentValue Felt) :=
  match other KeyNaN with
  | None => (Throw UndefinedValueNaN, target)
  | Some (RelocatableV _) => (Throw ExpectedFelt, target)
  | Some (FeltV _) =>
    (Normal (Element (other (KeyInfinite negative))), target)
  end.

(** [get(target, prop)]. *)
Definition get (target : gmap Z (SegmentValue Felt)) (prop : Property)
  : Completion (Exception Felt) (Value Felt JsValue) * gmap Z (SegmentValue Felt) :=
  match prop with
  | Symbol => (Throw TypeError, target)
  | Named name => (Normal (Reflected (Reflect_get target name)), target)
  | Index offset => getIndex target offset
  | Fraction floor a b => getFraction target floor a b
  | Infinite negative => getInfinite target negative
  end.

(** Reading the same property [n] times in a row; the array after the last
    read. *)
Fixpoint reread (n : nat) (target : gmap Z (SegmentValue Felt)) (prop : Property)
  : gmap Z (SegmentValue Felt) :=
  match n with
  | O => target
  | S n' => reread n' (snd (get target prop)) prop
  end.

End Handler.

(** The first cell of the block that holds the cell at [offset]. *)
Definition blockBase (offset : Z) : Z := offset - offset mod cellsPerBitwise.

End bitwiseHandler.

(** What a read leaves in the array, told from its key and its completion:
    the value returned for an output cell is in that cell, and nothing else
    has changed. *)
Definition writeBack {Felt JsValue : Type} (prop : Property)
    (completion : Completion (Exception Felt) (Value Felt JsValue))
    (target : gmap Z (SegmentValue Felt)) : gmap Z (SegmentValue Felt) :=
  match prop, completion with
  | Index offset, Normal (Element (Some v)) =>
    if 2 <=? Z.rem offset bitwiseHandler.cellsPerBitwise
    then <[offset := v]> target
    else target
  | _, _ => target
  end.

(** ** An implementation of [Felt] to run the handler on *)

Module Felt.

(** Modelled from the spec: the prime of the field of primitives/felt,
    p = 2^251 + 17 * 2^192 + 1. *)
Definition PRIME : Z := 2 ^ 251 + 17 * 2 ^ 192 + 1.

(** Modelled from the spec: the class Felt of primitives/felt, an element of
    the field held as its canonical representative. *)
Record t : Set := mk { inner : Z }.

(** Modelled from the spec: the constructor of Felt of primitives/felt,
    which makes a Felt from a non-negative integer in [0, PRIME). *)
Definition new (n : Z) : option t :=
  if (0 <=? n) && (n <? PRIME) then Some (mk n) else None.

(** Modelled from the spec: the method toBigInt of Felt of primitives/felt,
    the conversion to the canonical representative. *)
Definition toBigInt (f : t) : Z := inner f.

End Felt.

(** An array with no property under the keys that are no integers; integer
    keys never reach these two lookups. *)
Definition noReflect (target : gmap Z (SegmentValue Felt.t)) (name : string) : unit := tt.

Definition noOther (key : OtherKey) : option (SegmentValue Felt.t) := None.

(** The handler over that implementation, at an integer key. *)
Definition read (target : gmap Z (SegmentValue Felt.t)) (offset : Z) :=
  bitwiseHandler.get Felt.t Felt.new Felt.toBigInt unit noReflect noOther
    target (Index offset).

(** The segment of the scenario: [cell[0] = Felt(0b1100)],
    [cell[1] = Felt(0b1010)]. *)
Definition scenarioSegment : gmap Z (SegmentValue Felt.t) :=
  <[1 := FeltV (Felt.mk 10)]> (<[0 := FeltV (Felt.mk 12)]> ∅).

(** The same segment after the program has put [Felt(99)] in cell 2, and
    after cell 2 has received [Felt(0b1000)]. *)
Definition overwrittenSegment : gmap Z (SegmentValue Felt.t) :=
  <[2 := FeltV (Felt.mk 99)]> scenarioSegment.

Definition memoizedSegment : gmap Z (SegmentValue Felt.t) :=
  <[2 := FeltV (Felt.mk 8)]> scenarioSegment.

(** Segments with a faulty block: a Relocatable in cell 0 and nothing in
    cell 1; nothing in cell 0 and a Relocatable in cell 1; a Felt in cell 0
    and nothing in cell 1; a Felt in cell 0 and a Relocatable in cell 1. *)
Definition relocatableThenHole : gmap Z (SegmentValue Felt.t) :=
  <[0 := RelocatableV (Relocatable.mk 0 0)]> ∅.

Definition holeThenRelocatable : gmap Z (SegmentValue Felt.t) :=
  <[1 := RelocatableV (Relocatable.mk 0 0)]> ∅.

Definition feltThenHole : gmap Z (SegmentValue Felt.t) :=
  <[0 := FeltV (Felt.mk 12)]> ∅.

Definition feltThenRelocatable : gmap Z (SegmentValue Felt.t) :=
  <[1 := RelocatableV (Relocatable.mk 0 0)]> (<[0 := FeltV (Felt.mk 12)]> ∅).


(** ** Instruction words used below *)

(** [call rel 1]: op1 is the immediate, pc update JumpRel, opcode Call. *)
Definition callRelWord : Z := Instruction.word 0x8000 0x8001 0x8001 0x1104.

(** A conditional jump: op1 is the immediate, pc update Jnz. *)
Definition jnzWord : Z := Instruction.word 0x7fff 0x7fff 0x8001 0x0204.

(** What the two words decode to. *)
Definition callRelInstruction : Instruction.t :=
  Instruction.mk 0 1 1 Register.Ap Register.Ap Op1Src.Pc ResLogic.Op1
    PcUpdate.JumpRel ApUpdate.Add2 FpUpdate.ApPlus2 Opcode.Call.

Definition jnzInstruction : Instruction.t :=
  Instruction.mk (-1) (-1) 1 Register.Ap Register.Ap Op1Src.Pc ResLogic.Unused
    PcUpdate.Jnz ApUpdate.Ap FpUpdate.Fp Opcode.NoOp.

(** Illegal words.  The flags hold 3 in the op1 field ([0x000c]), in the
    res logic field ([0x0060]), in the ap update field ([0x0c00]), or in two
    of them. *)
Definition op1ThreeWord : Z := Instruction.word 0x8000 0x8000 0x8000 0x000c.
Definition resThreeWord : Z := Instruction.word 0x8000 0x8000 0x8000 0x0060.
Definition apThreeWord : Z := Instruction.word 0x8000 0x8000 0x8000 0x0c00.
Definition op1ThreeResThreeWord : Z := Instruction.word 0x8000 0x8000 0x8000 0x006c.
Definition op1ThreeApThreeWord : Z := Instruction.word 0x8000 0x8000 0x8000 0x0c0c.

(** ** The instructions the decoder produces

    The source has no encoder.  The definitions below describe the image of
    [decodeInstruction]: which instructions it can return, and for each of
    them the word it is decoded from. *)

(** The flag value each enumeration value is decoded from. *)
Definition registerFlag (r : Register.t) : Z :=
  match r with Register.Fp => 1 | _ => 0 end.

Definition op1SrcFlag (s : Op1Src.t) : Z :=
  match s with
  | Op1Src.Op0 => 0 | Op1Src.Pc => 1 | Op1Src.Fp => 2 | Op1Src.Ap => 4
  end.

Definition resLogicFlagOf (r : ResLogic.t) : Z :=
  match r with
  | ResLogic.Op1 | ResLogic.Unused => 0 | ResLogic.Add => 1 | ResLogic.Mul => 2
  end.

Definition pcUpdateFlagOf (u : PcUpdate.t) : Z :=
  match u with
  | PcUpdate.Regular => 0 | PcUpdate.Jump => 1
  | PcUpdate.JumpRel => 2 | PcUpdate.Jnz => 4
  end.

Definition apUpdateFlagOf (u : ApUpdate.t) : Z :=
  match u with
  | ApUpdate.Ap | ApUpdate.Add2 => 0 | ApUpdate.AddRes => 1 | ApUpdate.Add1 => 2
  end.

Definition opcodeFlagOf (o : Opcode.t) : Z :=
  match o with
  | Opcode.NoOp => 0 | Opcode.Call => 1 | Opcode.Ret => 2 | Opcode.AssertEq => 4
  end.

(** The flags and the word an instruction is decoded from. *)
Definition flagsOf (i : Instruction.t) : Z :=
  registerFlag (Instruction.dstRegister i)
  + 2 * registerFlag (Instruction.op0Register i)
  + 4 * op1SrcFlag (Instruction.op1Register i)
  + 32 * resLogicFlagOf (Instruction.resLogic i)
  + 128 * pcUpdateFlagOf (Instruction.pcUpdate i)
  + 1024 * apUpdateFlagOf (Instruction.apUpdate i)
  + 4096 * opcodeFlagOf (Instruction.opcode i).

Definition wordOf (i : Instruction.t) : Z :=
  (Instruction.dstOffset i + Instruction.BIAS)
  + 2 ^ 16 * (Instruction.op0Offset i + Instruction.BIAS)
  + 2 ^ 32 * (Instruction.op1Offset i + Instruction.BIAS)
  + 2 ^ 48 * flagsOf i.

(** An offset that fits the 16 bits of its biased field. *)
Definition offsetInRange (o : Z) : bool := (- 2 ^ 15 <=? o) && (o <? 2 ^ 15).

Definition FpUpdate_eqb (a b : FpUpdate.t) : bool :=
  match a, b with
  | FpUpdate.Fp, FpUpdate.Fp | FpUpdate.ApPlus2, FpUpdate.ApPlus2
  | FpUpdate.Dst, FpUpdate.Dst => true
  | _, _ => false
  end.

(** The instructions in the image of the decoder: offsets of 16 bits, dst
    and op0 read from ap or fp, res logic Unused with a Jnz and Op1 never
    with one, ap update Add2 with a Call and Ap never with one, and the fp
    update that belongs to the opcode. *)
Definition decodable (i : Instruction.t) : bool :=
  offsetInRange (Instruction.dstOffset i)
  && offsetInRange (Instruction.op0Offset i)
  && offsetInRange (Instruction.op1Offset i)
  && match Instruction.dstRegister i with Register.Pc => false | _ => true end
  && match Instruction.op0Register i with Register.Pc => false | _ => true end
  && match Instruction.resLogic i with
     | ResLogic.Unused => PcUpdate.eqb (Instruction.pcUpdate i) PcUpdate.Jnz
     | ResLogic.Op1 => negb (PcUpdate.eqb (Instruction.pcUpdate i) PcUpdate.Jnz)
     | _ => true
     end
  && match Instruction.apUpdate i with
     | ApUpdate.Add2 => Opcode.eqb (Instruction.opcode i) Opcode.Call
     | ApUpdate.Ap => negb (Opcode.eqb (Instruction.opcode i) Opcode.Call)
     | _ => true
     end
  && FpUpdate_eqb (Instruction.fpUpdate i)
       (Instruction.switchFpUpdate (Instruction.opcode i)).

(** The discriminator [opcode | resLogic] the enumeration values are made
    for: one integer for the pair. *)
Definition switchKey (r : ResLogic.t) (o : Opcode.t) : Z :=
  Z.lor (Opcode.value o) (ResLogic.value r).

(** ** More instruction words *)

(** [ret]: dst and op0 from fp, op1 from fp, pc update Jump, opcode Ret. *)
Definition retWord : Z := Instruction.word 0x7ffe 0x7fff 0x7fff 0x208b.

Definition retInstruction : Instruction.t :=
  Instruction.mk (-2) (-1) (-1) Register.Fp Register.Fp Op1Src.Fp ResLogic.Op1
    PcUpdate.Jump ApUpdate.Ap FpUpdate.Dst Opcode.Ret.

(** [ap += imm]: op1 is the immediate, ap update AddRes. *)
Definition addApWord : Z := Instruction.word 0x7fff 0x7fff 0x8001 0x0407.

Definition addApInstruction : Instruction.t :=
  Instruction.mk (-1) (-1) 1 Register.Fp Register.Fp Op1Src.Pc ResLogic.Op1
    PcUpdate.Regular ApUpdate.AddRes FpUpdate.Fp Opcode.NoOp.

(** [[ap] = [fp - 1] + [fp - 2]; ap++]: res logic Add, ap update Add1,
    opcode AssertEq. *)
Definition assertAddWord : Z := Instruction.word 0x8000 0x7fff 0x7ffe 0x482a.

Definition assertAddInstruction : Instruction.t :=
  Instruction.mk 0 (-1) (-2) Register.Ap Register.Fp Op1Src.Fp ResLogic.Add
    PcUpdate.Regular ApUpdate.Add1 FpUpdate.Fp Opcode.AssertEq.

(** Illegal words with 3 in the pc update field ([0x0180]) and in the
    opcode field ([0x3000]). *)
Definition pcThreeWord : Z := Instruction.word 0x8000 0x8000 0x8000 0x0180.
Definition opcodeThreeWord : Z := Instruction.word 0x8000 0x8000 0x8000 0x3000.

(** ** More segments *)

(** A block at the cells 5..9 with the inputs [Felt(5)] and [Felt(3)], and
    a value under the key -1, which is no array index. *)
Definition secondBlockSegment : gmap Z (SegmentValue Felt.t) :=
  <[6 := FeltV (Felt.mk 3)]> (<[5 := FeltV (Felt.mk 5)]>
    (<[-1 := FeltV (Felt.mk 7)]> ∅)).

(** A cell beyond 2^53, where the doubles are the even integers. *)
Definition farSegment : gmap Z (SegmentValue Felt.t) :=
  <[2 ^ 53 + 4 := FeltV (Felt.mk 6)]> ∅.

(** * Properties of the decoder *)

Section BitFields.

(** A mask of [n] low bits keeps the remainder modulo [2^n]. *)
Lemma land_mask_mod (x : Z) (n : Z) :
  0 <= n -> Z.land x (2 ^ n - 1) = x mod 2 ^ n.
Proof.
  intros Hn. rewrite <- Z.land_ones by assumption.
  now rewrite Z.ones_equiv, Z.sub_1_r.
Qed.

Lemma land_1 x : Z.land x 1 = x mod 2.
Proof. exact (land_mask_mod x 1 ltac:(lia)). Qed.

Lemma land_3 x : Z.land x 3 = x mod 4.
Proof. exact (land_mask_mod x 2 ltac:(lia)). Qed.

Lemma land_7 x : Z.land x 7 = x mod 8.
Proof. exact (land_mask_mod x 3 ltac:(lia)). Qed.

Lemma land_ffff x : Z.land x 0xffff = x mod 2 ^ 16.
Proof. exact (land_mask_mod x 16 ltac:(lia)). Qed.

(** The shifted word is zero exactly below [2^63]. *)
Lemma shiftr_63_zero (w : Z) : Z.shiftr w 63 = 0 <-> 0 <= w < 2 ^ 63.
Proof.
  rewrite Z.shiftr_div_pow2 by lia. split.
  - intros H. apply Z.div_small_iff in H; lia.
  - intros H. apply Z.div_small. lia.
Qed.

End BitFields.

Section FlagRanges.

Import Instruction.

Variable w : Z.

Lemma dstRegisterFlag_range : 0 <= dstRegisterFlag w < 2.
Proof. unfold dstRegisterFlag. rewrite land_1. apply Z.mod_pos_bound. lia. Qed.

Lemma op0RegisterFlag_range : 0 <= op0RegisterFlag w < 2.
Proof. unfold op0RegisterFlag. rewrite land_1. apply Z.mod_pos_bound. lia. Qed.

Lemma op1RegisterFlag_range : 0 <= op1RegisterFlag w < 8.
Proof. unfold op1RegisterFlag. rewrite land_7. apply Z.mod_pos_bound. lia. Qed.

Lemma resLogicFlag_range : 0 <= resLogicFlag w < 4.
Proof. unfold resLogicFlag. rewrite land_3. apply Z.mod_pos_bound. lia. Qed.

Lemma pcUpdateFlag_range : 0 <= pcUpdateFlag w < 8.
Proof. unfold pcUpdateFlag. rewrite land_7. apply Z.mod_pos_bound. lia. Qed.

Lemma apUpdateFlag_range : 0 <= apUpdateFlag w < 4.
Proof. unfold apUpdateFlag. rewrite land_3. apply Z.mod_pos_bound. lia. Qed.

Lemma opcodeFlag_range : 0 <= opcodeFlag w < 8.
Proof. unfold opcodeFlag. rewrite land_7. apply Z.mod_pos_bound. lia. Qed.

(** Each flag field as a slice of the word: the field that starts at bit
    [k] of the flags starts at bit [48 + k] of the word. *)
Lemma flag_slice (k m : Z) :
  0 <= k -> 0 < m ->
  (Z.shiftr (flags w) k) mod m = (w / 2 ^ (48 + k)) mod m.
Proof.
  intros Hk Hm. unfold flags.
  rewrite Z.shiftr_shiftr by lia.
  now rewrite Z.shiftr_div_pow2 by lia.
Qed.

End FlagRanges.

(** ** How the decoder runs through its switches *)

Section DecoderSteps.

Import Instruction.

Lemma bind_Normal {E A B} (a : A) (f : A -> Completion E B) :
  (Normal a ≫= f) = f a.
Proof. reflexivity. Qed.

Lemma bind_Normal_inv {E A B} (c : Completion E A) (f : A -> Completion E B) b :
  (c ≫= f) = Normal b -> exists a, c = Normal a /\ f a = Normal b.
Proof. destruct c as [a | e]; [eauto | discriminate]. Qed.

(** The two register switches have no reachable [default]. *)
Lemma switchDstRegister_total f :
  0 <= f < 2 -> exists r, switchDstRegister f = Normal r.
Proof.
  intros H. assert (f = 0 \/ f = 1) as [-> | ->] by lia; simpl; eauto.
Qed.

Lemma switchOp0Register_total f :
  0 <= f < 2 -> exists r, switchOp0Register f = Normal r.
Proof.
  intros H. assert (f = 0 \/ f = 1) as [-> | ->] by lia; simpl; eauto.
Qed.

(** A three-bit switch returns on the one-hot encodings and throws on the
    others. *)
Ltac three_bit_cases f H :=
  assert (f = 0 \/ f = 1 \/ f = 2 \/ f = 3 \/ f = 4 \/ f = 5 \/ f = 6 \/ f = 7)
    as [-> | [-> | [-> | [-> | [-> | [-> | [-> | ->]]]]]]] by lia.

Lemma switchOp1Register_cases f :
  0 <= f < 8 ->
  (oneHot f = true /\ exists r, switchOp1Register f = Normal r)
  \/ (oneHot f = false /\ switchOp1Register f = Throw InvalidOp1Register).
Proof. intros H. three_bit_cases f H; simpl; eauto. Qed.

Lemma switchPcUpdate_cases f :
  0 <= f < 8 ->
  (oneHot f = true /\ exists r, switchPcUpdate f = Normal r)
  \/ (oneHot f = false /\ switchPcUpdate f = Throw InvalidPcUpdate).
Proof. intros H. three_bit_cases f H; simpl; eauto. Qed.

Lemma switchOpcode_cases f :
  0 <= f < 8 ->
  (oneHot f = true /\ exists r, switchOpcode f = Normal r)
  \/ (oneHot f = false /\ switchOpcode f = Throw InvalidOpcode).
Proof. intros H. three_bit_cases f H; simpl; eauto. Qed.

Lemma switchResLogic_cases f pc :
  0 <= f < 4 ->
  (f <> 3 /\ exists r, switchResLogic f pc = Normal r)
  \/ (f = 3 /\ switchResLogic f pc = Throw InvalidResLogic).
Proof.
  intros H. assert (f = 0 \/ f = 1 \/ f = 2 \/ f = 3)
    as [-> | [-> | [-> | ->]]] by lia; simpl; eauto; left; split; eauto; lia.
Qed.

Lemma switchApUpdate_cases f opc :
  0 <= f < 4 ->
  (f <> 3 /\ exists r, switchApUpdate f opc = Normal r)
  \/ (f = 3 /\ switchApUpdate f opc = Throw InvalidApUpdate).
Proof.
  intros H. assert (f = 0 \/ f = 1 \/ f = 2 \/ f = 3)
    as [-> | [-> | [-> | ->]]] by lia; simpl; eauto; left; split; eauto; lia.
Qed.

(** The high-bit test. *)
Lemma decodeInstruction_high (w : Z) :
  ~ (0 <= w < 2 ^ 63) -> decodeInstruction w = Throw HighBitSetError.
Proof.
  intros H. unfold decodeInstruction.
  destruct (Z.eqb_spec (Z.shiftr w 63) 0) as [E | E]; [| reflexivity].
  apply shiftr_63_zero in E. contradiction.
Qed.

(** Below [2^63] the decoder passes the two register switches and goes on
    with the five that can throw, in this order. *)
Lemma decodeInstruction_chain (w : Z) :
  0 <= w < 2 ^ 63 ->
  exists dr o0,
    decodeInstruction w =
      (op1 ← switchOp1Register (op1RegisterFlag w);
       pc ← switchPcUpdate (pcUpdateFlag w);
       res ← switchResLogic (resLogicFlag w) pc;
       opc ← switchOpcode (opcodeFlag w);
       ap ← switchApUpdate (apUpdateFlag w) opc;
       Normal (mk (fromBiased (Z.land w 0xffff))
                  (fromBiased (Z.land (Z.shiftr w 16) 0xffff))
                  (fromBiased (Z.land (Z.shiftr w 32) 0xffff))
                  dr o0 op1 res pc ap (switchFpUpdate opc) opc)).
Proof.
  intros H. unfold decodeInstruction.
  apply shiftr_63_zero in H. rewrite H. simpl negb. cbv iota.
  destruct (switchDstRegister_total _ (dstRegisterFlag_range w)) as [dr ->].
  destruct (switchOp0Register_total _ (op0RegisterFlag_range w)) as [o0 ->].
  exists dr, o0. reflexivity.
Qed.

(** What a successful decoding tells about each field. *)
Lemma decodeInstruction_Normal_inv (w : Z) (i : t) :
  decodeInstruction w = Normal i ->
  0 <= w < 2 ^ 63
  /\ switchOp1Register (op1RegisterFlag w) = Normal (op1Register i)
  /\ switchPcUpdate (pcUpdateFlag w) = Normal (pcUpdate i)
  /\ switchResLogic (resLogicFlag w) (pcUpdate i) = Normal (resLogic i)
  /\ switchOpcode (opcodeFlag w) = Normal (opcode i)
  /\ switchApUpdate (apUpdateFlag w) (opcode i) = Normal (apUpdate i)
  /\ fpUpdate i = switchFpUpdate (opcode i)
  /\ dstOffset i = fromBiased (Z.land w 0xffff)
  /\ op0Offset i = fromBiased (Z.land (Z.shiftr w 16) 0xffff)
  /\ op1Offset i = fromBiased (Z.land (Z.shiftr w 32) 0xffff).
Proof.
  intros H.
  assert (Hw : 0 <= w < 2 ^ 63).
  { destruct (Z_le_dec 0 w) as [H0 | H0];
      [destruct (Z_lt_dec w (2 ^ 63)) as [H1 | H1]; [lia |] |];
      rewrite decodeInstruction_high in H by lia; discriminate. }
  split; [exact Hw |].
  destruct (decodeInstruction_chain w Hw) as (dr & o0 & E).
  rewrite E in H.
  apply bind_Normal_inv in H as (op1 & H1 & H).
  apply bind_Normal_inv in H as (pc & H2 & H).
  apply bind_Normal_inv in H as (res & H3 & H).
  apply bind_Normal_inv in H as (opc & H4 & H).
  apply bind_Normal_inv in H as (ap & H5 & H).
  injection H as <-. cbn [op1Register pcUpdate resLogic opcode apUpdate fpUpdate
                          dstOffset op0Offset op1Offset].
  repeat split; assumption.
Qed.

(** The decoder stops at the first illegal field, and returns when there is
    none. *)
Lemma decodeInstruction_firstInvalid (w : Z) :
  0 <= w < 2 ^ 63 ->
  match firstInvalid w with
  | Some e => decodeInstruction w = Throw e
  | None => exists i, decodeInstruction w = Normal i
  end.
Proof.
  intros Hw. destruct (decodeInstruction_chain w Hw) as (dr & o0 & ->).
  unfold firstInvalid.
  destruct (switchOp1Register_cases _ (op1RegisterFlag_range w))
    as [[-> [op1 ->]] | [-> ->]]; [| reflexivity].
  rewrite bind_Normal. cbn [negb].
  destruct (switchPcUpdate_cases _ (pcUpdateFlag_range w))
    as [[-> [pc ->]] | [-> ->]]; [| reflexivity].
  rewrite bind_Normal. cbn [negb].
  destruct (switchResLogic_cases _ pc (resLogicFlag_range w))
    as [[Hne [res ->]] | [-> ->]]; [| reflexivity].
  rewrite bind_Normal. apply Z.eqb_neq in Hne. rewrite Hne.
  destruct (switchOpcode_cases _ (opcodeFlag_range w))
    as [[-> [opc ->]] | [-> ->]]; [| reflexivity].
  rewrite bind_Normal. cbn [negb].
  destruct (switchApUpdate_cases _ opc (apUpdateFlag_range w))
    as [[Hne' [ap ->]] | [-> ->]]; [| reflexivity].
  rewrite bind_Normal. apply Z.eqb_neq in Hne'. rewrite Hne'.
  eauto.
Qed.

Lemma decodeInstruction_Throw_iff (w : Z) (e : InstructionDecodeError) :
  0 <= w < 2 ^ 63 ->
  decodeInstruction w = Throw e <-> firstInvalid w = Some e.
Proof.
  intros Hw. pose proof (decodeInstruction_firstInvalid w Hw) as H.
  destruct (firstInvalid w) as [e' |].
  - rewrite H. split; congruence.
  - destruct H as [i ->]. split; discriminate.
Qed.

End DecoderSteps.

(** ** The decoder and the specification *)

Section DecoderClaims.

Import Instruction.

Lemma PcUpdate_eqb_eq (a b : PcUpdate.t) : PcUpdate.eqb a b = true <-> a = b.
Proof. destruct a, b; simpl; split; congruence. Qed.

Lemma Opcode_eqb_eq (a b : Opcode.t) : Opcode.eqb a b = true <-> a = b.
Proof. destruct a, b; simpl; split; congruence. Qed.

Lemma oneHot_true (f : Z) :
  oneHot f = true <-> f = 0 \/ f = 1 \/ f = 2 \/ f = 4.
Proof.
  unfold oneHot. rewrite !orb_true_iff, !Z.eqb_eq. tauto.
Qed.

Lemma oneHot_false (f : Z) :
  0 <= f < 8 -> oneHot f = false <-> f = 3 \/ f = 5 \/ f = 6 \/ f = 7.
Proof.
  intros H. rewrite <- not_true_iff_false, oneHot_true. lia.
Qed.

Ltac word_in_range := vm_compute; split; [discriminate | reflexivity].

(** A word below [2^63] whose five checked fields are legal decodes. *)
Lemma decodeInstruction_accepts (w : Z) :
  0 <= w < 2 ^ 63 ->
  oneHot (op1RegisterFlag w) = true ->
  oneHot (pcUpdateFlag w) = true ->
  resLogicFlag w <> 3 ->
  oneHot (opcodeFlag w) = true ->
  apUpdateFlag w <> 3 ->
  exists i : t, decodeInstruction w = Normal i.
Proof.
  intros Hw H1 Hp Hr Ho Ha.
  pose proof (decodeInstruction_firstInvalid w Hw) as F.
  unfold firstInvalid in F. rewrite H1, Hp, Ho in F. cbn [negb] in F.
  apply Z.eqb_neq in Hr, Ha. rewrite Hr, Ha in F. exact F.
Qed.

(** C5.  On a non-negative word the decoder throws HighBitSetError exactly
    when the word is at least 2^63; it does so on 1 << 63; and a word it
    accepts has bit 63 clear. *)
Theorem high_bit_set_iff :
  (forall w : Z, 0 <= w ->
     decodeInstruction w = Throw HighBitSetError <-> 2 ^ 63 <= w)
  /\ decodeInstruction (Z.shiftl 1 63) = Throw HighBitSetError
  /\ (forall (w : Z) (i : t),
        decodeInstruction w = Normal i -> Z.testbit w 63 = false).
Proof.
  split; [| split].
  - intros w H0. split.
    + intros H. destruct (Z_lt_dec w (2 ^ 63)) as [Hlt | Hge]; [| lia].
      apply decodeInstruction_Throw_iff in H; [| lia].
      unfold firstInvalid in H.
      repeat match type of H with
             | (if ?c then _ else _) = _ => destruct c
             end; discriminate.
    + intros H. apply decodeInstruction_high. lia.
  - apply decodeInstruction_high. rewrite Z.shiftl_1_l. lia.
  - intros w i H. apply decodeInstruction_Normal_inv in H as [Hw _].
    apply shiftr_63_zero in Hw.
    replace 63 with (0 + 63) by reflexivity.
    rewrite <- Z.shiftr_spec by lia. rewrite Hw. reflexivity.
Qed.

Lemma high_bit_set_iff_witness :
  (decodeInstruction (2 ^ 63 + 5) = Throw HighBitSetError <-> 2 ^ 63 <= 2 ^ 63 + 5)
  /\ Z.testbit callRelWord 63 = false.
Proof.
  split.
  - apply (proj1 high_bit_set_iff (2 ^ 63 + 5)). vm_compute. discriminate.
  - apply (proj2 (proj2 high_bit_set_iff) callRelWord callRelInstruction).
    vm_compute. reflexivity.
Defined.

(** C8.  On a 63-bit word the op1 field, bits 2..4 of the flags, decodes
    0 to Op0, 1 to Pc, 2 to Fp and 4 to Ap, and the decoder throws
    InvalidOp1Register (the specification's InvalidOp1Src) exactly on the
    values 3, 5, 6 and 7.  With a legal op1 field the decoder throws on
    another field or returns the instruction with the op1 source of the
    field; it returns it when the other fields are legal. *)
Theorem decode_op1_src (w : Z) :
  0 <= w < 2 ^ 63 ->
  op1RegisterFlag w = (w / 2 ^ 50) mod 8
  /\ (decodeInstruction w = Throw InvalidOp1Register
      <-> op1RegisterFlag w = 3 \/ op1RegisterFlag w = 5
          \/ op1RegisterFlag w = 6 \/ op1RegisterFlag w = 7)
  /\ (forall i : t, decodeInstruction w = Normal i ->
        (op1RegisterFlag w = 0 /\ op1Register i = Op1Src.Op0)
        \/ (op1RegisterFlag w = 1 /\ op1Register i = Op1Src.Pc)
        \/ (op1RegisterFlag w = 2 /\ op1Register i = Op1Src.Fp)
        \/ (op1RegisterFlag w = 4 /\ op1Register i = Op1Src.Ap))
  /\ (oneHot (pcUpdateFlag w) = true ->
      resLogicFlag w <> 3 ->
      oneHot (opcodeFlag w) = true ->
      apUpdateFlag w <> 3 ->
      (op1RegisterFlag w = 0 ->
         exists i : t, decodeInstruction w = Normal i
                       /\ op1Register i = Op1Src.Op0)
      /\ (op1RegisterFlag w = 1 ->
            exists i : t, decodeInstruction w = Normal i
                          /\ op1Register i = Op1Src.Pc)
      /\ (op1RegisterFlag w = 2 ->
            exists i : t, decodeInstruction w = Normal i
                          /\ op1Register i = Op1Src.Fp)
      /\ (op1RegisterFlag w = 4 ->
            exists i : t, decodeInstruction w = Normal i
                          /\ op1Register i = Op1Src.Ap)).
Proof.
  intros Hw.
  assert (Hmap : forall i : t, decodeInstruction w = Normal i ->
            (op1RegisterFlag w = 0 /\ op1Register i = Op1Src.Op0)
            \/ (op1RegisterFlag w = 1 /\ op1Register i = Op1Src.Pc)
            \/ (op1RegisterFlag w = 2 /\ op1Register i = Op1Src.Fp)
            \/ (op1RegisterFlag w = 4 /\ op1Register i = Op1Src.Ap)).
  { intros i H. apply decodeInstruction_Normal_inv in H as (_ & H & _).
    pose proof (op1RegisterFlag_range w) as R. revert H R.
    generalize (op1RegisterFlag w) as f. intros f H R.
    assert (f = 0 \/ f = 1 \/ f = 2 \/ f = 3 \/ f = 4 \/ f = 5 \/ f = 6 \/ f = 7)
      as [-> | [-> | [-> | [-> | [-> | [-> | [-> | ->]]]]]]] by lia;
      simpl in H; try discriminate; injection H as <-; auto. }
  split; [| split; [| split]].
  - unfold op1RegisterFlag. rewrite land_7. apply (flag_slice w 2 8); lia.
  - rewrite decodeInstruction_Throw_iff by assumption.
    rewrite <- oneHot_false by apply op1RegisterFlag_range.
    unfold firstInvalid. destruct (oneHot (op1RegisterFlag w)); cbn [negb].
    + split; [| discriminate]. intros H.
      repeat match type of H with
             | (if ?c then _ else _) = _ => destruct c
             end; discriminate.
    + split; reflexivity.
  - exact Hmap.
  - intros Hp Hr Ho Ha.
    assert (Hacc : oneHot (op1RegisterFlag w) = true ->
              exists i : t, decodeInstruction w = Normal i).
    { intros H1. now apply decodeInstruction_accepts. }
    repeat split; intros E;
      (destruct Hacc as [i Hi]; [rewrite E; reflexivity |]);
      exists i; (split; [exact Hi |]);
      destruct (Hmap i Hi) as [[E' M] | [[E' M] | [[E' M] | [E' M]]]];
      first [exact M | rewrite E in E'; discriminate E'].
Qed.

Lemma decode_op1_src_witness :
  (0 <= op1ThreeWord < 2 ^ 63
   /\ op1RegisterFlag op1ThreeWord = 3
   /\ decodeInstruction op1ThreeWord = Throw InvalidOp1Register)
  /\ (op1RegisterFlag callRelWord = 1
      /\ exists i : t, decodeInstruction callRelWord = Normal i
                       /\ op1Register i = Op1Src.Pc)
  /\ (op1RegisterFlag retWord = 2
      /\ exists i : t, decodeInstruction retWord = Normal i
                       /\ op1Register i = Op1Src.Fp).
Proof.
  assert (R : 0 <= op1ThreeWord < 2 ^ 63) by word_in_range.
  assert (Rc : 0 <= callRelWord < 2 ^ 63) by word_in_range.
  assert (Rr : 0 <= retWord < 2 ^ 63) by word_in_range.
  split; [| split].
  - split; [exact R | split; [reflexivity |]].
    apply (decode_op1_src op1ThreeWord R). left. reflexivity.
  - split; [reflexivity |].
    apply (proj2 (proj2 (proj2 (decode_op1_src callRelWord Rc)))).
    + reflexivity.
    + discriminate.
    + reflexivity.
    + discriminate.
    + reflexivity.
  - split; [reflexivity |].
    apply (proj2 (proj2 (proj2 (decode_op1_src retWord Rr)))).
    + reflexivity.
    + discriminate.
    + reflexivity.
    + discriminate.
    + reflexivity.
Defined.

(** C9.  A word below 2^63 that decodes has its three offsets debiased:
    each is the 16-bit field of the word, w[0..16), w[16..32), w[32..48),
    minus 2^15, and so lies in [-2^15, 2^15 - 1]. *)
Theorem decoded_offsets_debiased (w : Z) (i : t) :
  w < 2 ^ 63 ->
  decodeInstruction w = Normal i ->
  (dstOffset i = w mod 2 ^ 16 - 2 ^ 15
   /\ op0Offset i = (w / 2 ^ 16) mod 2 ^ 16 - 2 ^ 15
   /\ op1Offset i = (w / 2 ^ 32) mod 2 ^ 16 - 2 ^ 15)
  /\ (- 2 ^ 15 <= dstOffset i <= 2 ^ 15 - 1
      /\ - 2 ^ 15 <= op0Offset i <= 2 ^ 15 - 1
      /\ - 2 ^ 15 <= op1Offset i <= 2 ^ 15 - 1).
Proof.
  intros _ H.
  apply decodeInstruction_Normal_inv in H
    as (_ & _ & _ & _ & _ & _ & _ & Hd & H0 & H1).
  unfold fromBiased, BIAS in Hd, H0, H1.
  rewrite land_ffff in Hd, H0, H1.
  rewrite Z.shiftr_div_pow2 in H0, H1 by lia.
  split; [auto |].
  pose proof (Z.mod_pos_bound w (2 ^ 16) ltac:(lia)).
  pose proof (Z.mod_pos_bound (w / 2 ^ 16) (2 ^ 16) ltac:(lia)).
  pose proof (Z.mod_pos_bound (w / 2 ^ 32) (2 ^ 16) ltac:(lia)).
  lia.
Qed.

Lemma decoded_offsets_debiased_witness :
  (dstOffset jnzInstruction = jnzWord mod 2 ^ 16 - 2 ^ 15
   /\ op0Offset jnzInstruction = (jnzWord / 2 ^ 16) mod 2 ^ 16 - 2 ^ 15
   /\ op1Offset jnzInstruction = (jnzWord / 2 ^ 32) mod 2 ^ 16 - 2 ^ 15)
  /\ (- 2 ^ 15 <= dstOffset jnzInstruction <= 2 ^ 15 - 1
      /\ - 2 ^ 15 <= op0Offset jnzInstruction <= 2 ^ 15 - 1
      /\ - 2 ^ 15 <= op1Offset jnzInstruction <= 2 ^ 15 - 1).
Proof.
  apply (decoded_offsets_debiased jnzWord jnzInstruction).
  - reflexivity.
  - reflexivity.
Defined.

(** C10.  On every integer the two register flags are 0 or 1, so the
    decoder never throws InvalidDstRegister or InvalidOp0Register: the
    default branches of the two register switches are unreachable. *)
Theorem register_flags_never_invalid (w : Z) :
  (dstRegisterFlag w = 0 \/ dstRegisterFlag w = 1)
  /\ (op0RegisterFlag w = 0 \/ op0RegisterFlag w = 1)
  /\ (forall r, switchDstRegister (dstRegisterFlag w) <> Throw r)
  /\ (forall r, switchOp0Register (op0RegisterFlag w) <> Throw r)
  /\ decodeInstruction w <> Throw InvalidDstRegister
  /\ decodeInstruction w <> Throw InvalidOp0Register.
Proof.
  pose proof (dstRegisterFlag_range w) as Rd.
  pose proof (op0RegisterFlag_range w) as R0.
  split; [lia |]. split; [lia |].
  split; [| split].
  - intros r. destruct (switchDstRegister_total _ Rd) as [x ->]. discriminate.
  - intros r. destruct (switchOp0Register_total _ R0) as [x ->]. discriminate.
  - assert (In_or_out : 0 <= w < 2 ^ 63 \/ ~ (0 <= w < 2 ^ 63)) by lia.
    destruct In_or_out as [Hw | Hw].
    + split; intros H; apply decodeInstruction_Throw_iff in H; try assumption;
        unfold firstInvalid in H;
        repeat match type of H with
               | (if ?c then _ else _) = _ => destruct c
               end; discriminate.
    + rewrite decodeInstruction_high by assumption. split; discriminate.
Qed.

(** C4, as the decoder has it.  On a 63-bit word the res logic field,
    bits 5..6 of the flags, decodes 0 to Unused when the decoded pc update
    is Jnz and to Op1 otherwise, 1 to Add and 2 to Mul: a word with one of
    these values and legal other fields decodes, to an instruction with
    that res logic.  The value 3 makes the decoder throw InvalidResLogic
    when the op1 and pc update fields, which are checked before it, are
    legal; in every case a word with the value 3 is rejected. *)
Theorem decode_res_logic (w : Z) :
  0 <= w < 2 ^ 63 ->
  resLogicFlag w = (w / 2 ^ 53) mod 4
  /\ (forall i : t, decodeInstruction w = Normal i ->
        (resLogicFlag w = 0
         /\ (pcUpdate i = PcUpdate.Jnz -> resLogic i = ResLogic.Unused)
         /\ (pcUpdate i <> PcUpdate.Jnz -> resLogic i = ResLogic.Op1))
        \/ (resLogicFlag w = 1 /\ resLogic i = ResLogic.Add)
        \/ (resLogicFlag w = 2 /\ resLogic i = ResLogic.Mul))
  /\ (decodeInstruction w = Throw InvalidResLogic
      <-> resLogicFlag w = 3
          /\ oneHot (op1RegisterFlag w) = true
          /\ oneHot (pcUpdateFlag w) = true)
  /\ (resLogicFlag w = 3 -> forall i : t, decodeInstruction w <> Normal i)
  /\ (oneHot (op1RegisterFlag w) = true ->
      oneHot (pcUpdateFlag w) = true ->
      oneHot (opcodeFlag w) = true ->
      apUpdateFlag w <> 3 ->
      (resLogicFlag w = 0 ->
         exists i : t,
           decodeInstruction w = Normal i
           /\ (pcUpdate i = PcUpdate.Jnz -> resLogic i = ResLogic.Unused)
           /\ (pcUpdate i <> PcUpdate.Jnz -> resLogic i = ResLogic.Op1))
      /\ (resLogicFlag w = 1 ->
            exists i : t, decodeInstruction w = Normal i
                          /\ resLogic i = ResLogic.Add)
      /\ (resLogicFlag w = 2 ->
            exists i : t, decodeInstruction w = Normal i
                          /\ resLogic i = ResLogic.Mul)).
Proof.
  intros Hw.
  assert (Hmap : forall i : t, decodeInstruction w = Normal i ->
            (resLogicFlag w = 0
             /\ (pcUpdate i = PcUpdate.Jnz -> resLogic i = ResLogic.Unused)
             /\ (pcUpdate i <> PcUpdate.Jnz -> resLogic i = ResLogic.Op1))
            \/ (resLogicFlag w = 1 /\ resLogic i = ResLogic.Add)
            \/ (resLogicFlag w = 2 /\ resLogic i = ResLogic.Mul)).
  { intros i H. apply decodeInstruction_Normal_inv in H as (_ & _ & _ & H & _).
    pose proof (resLogicFlag_range w) as R. revert H R.
    generalize (resLogicFlag w) as f. intros f H R.
    assert (f = 0 \/ f = 1 \/ f = 2 \/ f = 3)
      as [-> | [-> | [-> | ->]]] by lia;
      simpl in H; try discriminate; injection H as <-; auto.
    left. split; [reflexivity |].
    destruct (PcUpdate.eqb (pcUpdate i) PcUpdate.Jnz) eqn:E.
    + split; [reflexivity |]. apply PcUpdate_eqb_eq in E. congruence.
    + split; [| reflexivity]. intros E'. apply PcUpdate_eqb_eq in E'. congruence. }
  split; [| split; [| split; [| split]]].
  - unfold resLogicFlag. rewrite land_3. apply (flag_slice w 5 4); lia.
  - exact Hmap.
  - rewrite decodeInstruction_Throw_iff by assumption. unfold firstInvalid.
    destruct (oneHot (op1RegisterFlag w)); cbn [negb];
      [| split; [discriminate | intros (_ & ? & _); discriminate]].
    destruct (oneHot (pcUpdateFlag w)); cbn [negb];
      [| split; [discriminate | intros (_ & _ & ?); discriminate]].
    destruct (Z.eqb_spec (resLogicFlag w) 3) as [E | E]; [tauto |].
    split; [| tauto]. intros H.
    repeat match type of H with
           | (if ?c then _ else _) = _ => destruct c
           end; discriminate.
  - intros E i H. apply decodeInstruction_Normal_inv in H as (_ & _ & _ & H & _).
    rewrite E in H. discriminate.
  - intros H1 Hp Ho Ha.
    assert (Hacc : resLogicFlag w <> 3 ->
              exists i : t, decodeInstruction w = Normal i).
    { intros Hr. now apply decodeInstruction_accepts. }
    repeat split; intros E;
      (destruct Hacc as [i Hi]; [rewrite E; discriminate |]);
      exists i; (split; [exact Hi |]);
      destruct (Hmap i Hi) as [(E' & M) | [(E' & M) | (E' & M)]];
      first [exact M | rewrite E in E'; discriminate E'].
Qed.

Lemma decode_res_logic_witness :
  (0 <= resThreeWord < 2 ^ 63
   /\ resLogicFlag resThreeWord = 3
   /\ decodeInstruction resThreeWord = Throw InvalidResLogic)
  /\ (resLogicFlag jnzWord = 0
      /\ exists i : t,
           decodeInstruction jnzWord = Normal i
           /\ (pcUpdate i = PcUpdate.Jnz -> resLogic i = ResLogic.Unused)
           /\ (pcUpdate i <> PcUpdate.Jnz -> resLogic i = ResLogic.Op1))
  /\ (resLogicFlag assertAddWord = 1
      /\ exists i : t, decodeInstruction assertAddWord = Normal i
                       /\ resLogic i = ResLogic.Add).
Proof.
  assert (R : 0 <= resThreeWord < 2 ^ 63) by word_in_range.
  assert (Rj : 0 <= jnzWord < 2 ^ 63) by word_in_range.
  assert (Ra : 0 <= assertAddWord < 2 ^ 63) by word_in_range.
  split; [| split].
  - split; [exact R | split; [reflexivity |]].
    apply (decode_res_logic resThreeWord R). repeat split.
  - split; [reflexivity |].
    apply (proj2 (proj2 (proj2 (proj2 (decode_res_logic jnzWord Rj))))).
    + reflexivity.
    + reflexivity.
    + reflexivity.
    + discriminate.
    + reflexivity.
  - split; [reflexivity |].
    apply (proj2 (proj2 (proj2 (proj2 (decode_res_logic assertAddWord Ra))))).
    + reflexivity.
    + reflexivity.
    + reflexivity.
    + discriminate.
    + reflexivity.
Defined.

(** C4 as stated fails: this 63-bit word holds 3 in its res logic field and
    the decoder throws InvalidOp1Register on it, not InvalidResLogic. *)
Lemma res_logic_three_other_error :
  0 <= op1ThreeResThreeWord < 2 ^ 63
  /\ resLogicFlag op1ThreeResThreeWord = 3
  /\ decodeInstruction op1ThreeResThreeWord = Throw InvalidOp1Register
  /\ decodeInstruction op1ThreeResThreeWord <> Throw InvalidResLogic.
Proof.
  split; [word_in_range |]. split; [reflexivity |].
  split; [reflexivity | discriminate].
Qed.

(** C3, as the decoder has it.  On a 63-bit word whose ap update field,
    bits 10..11 of the flags, is 0, the decoded ap update is Add2 when the
    decoded opcode is Call and Ap otherwise, and such a word with legal
    other fields decodes.  The value 3 makes the decoder throw
    InvalidApUpdate when the op1, pc update, res logic and opcode fields,
    which are checked before it, are legal; in every case a word with the
    value 3 is rejected. *)
Theorem decode_ap_update (w : Z) :
  0 <= w < 2 ^ 63 ->
  apUpdateFlag w = (w / 2 ^ 58) mod 4
  /\ (apUpdateFlag w = 0 -> forall i : t, decodeInstruction w = Normal i ->
        (opcode i = Opcode.Call -> apUpdate i = ApUpdate.Add2)
        /\ (opcode i <> Opcode.Call -> apUpdate i = ApUpdate.Ap))
  /\ (decodeInstruction w = Throw InvalidApUpdate
      <-> apUpdateFlag w = 3
          /\ oneHot (op1RegisterFlag w) = true
          /\ oneHot (pcUpdateFlag w) = true
          /\ resLogicFlag w <> 3
          /\ oneHot (opcodeFlag w) = true)
  /\ (apUpdateFlag w = 3 -> forall i : t, decodeInstruction w <> Normal i)
  /\ (apUpdateFlag w = 0 ->
      oneHot (op1RegisterFlag w) = true ->
      oneHot (pcUpdateFlag w) = true ->
      resLogicFlag w <> 3 ->
      oneHot (opcodeFlag w) = true ->
      exists i : t,
        decodeInstruction w = Normal i
        /\ (opcodeFlag w = 1 /\ opcode i = Opcode.Call
            /\ apUpdate i = ApUpdate.Add2
            \/ opcodeFlag w <> 1 /\ opcode i <> Opcode.Call
               /\ apUpdate i = ApUpdate.Ap)).
Proof.
  intros Hw.
  assert (Hmap : apUpdateFlag w = 0 ->
            forall i : t, decodeInstruction w = Normal i ->
            (opcode i = Opcode.Call -> apUpdate i = ApUpdate.Add2)
            /\ (opcode i <> Opcode.Call -> apUpdate i = ApUpdate.Ap)).
  { intros E i H.
    apply decodeInstruction_Normal_inv in H as (_ & _ & _ & _ & _ & H & _).
    rewrite E in H. simpl in H. injection H as <-.
    destruct (Opcode.eqb (opcode i) Opcode.Call) eqn:E'.
    + split; [reflexivity |]. apply Opcode_eqb_eq in E'. congruence.
    + split; [| reflexivity]. intros E''. apply Opcode_eqb_eq in E''. congruence. }
  split; [| split; [| split; [| split]]].
  - unfold apUpdateFlag. rewrite land_3. apply (flag_slice w 10 4); lia.
  - exact Hmap.
  - rewrite decodeInstruction_Throw_iff by assumption. unfold firstInvalid.
    destruct (oneHot (op1RegisterFlag w)); cbn [negb];
      [| split; [discriminate | intros (_ & ? & _); discriminate]].
    destruct (oneHot (pcUpdateFlag w)); cbn [negb];
      [| split; [discriminate | intros (_ & _ & ? & _); discriminate]].
    destruct (Z.eqb_spec (resLogicFlag w) 3) as [E | E];
      [split; [discriminate | tauto] |].
    destruct (oneHot (opcodeFlag w)); cbn [negb];
      [| split; [discriminate | intros (_ & _ & _ & _ & ?); discriminate]].
    destruct (Z.eqb_spec (apUpdateFlag w) 3) as [E' | E'];
      [tauto | split; [discriminate | tauto]].
  - intros E i H.
    apply decodeInstruction_Normal_inv in H as (_ & _ & _ & _ & _ & H & _).
    rewrite E in H. discriminate.
  - intros E H1 Hp Hr Ho.
    destruct (decodeInstruction_accepts w Hw H1 Hp Hr Ho) as [i Hi];
      [rewrite E; discriminate |].
    exists i. split; [exact Hi |].
    destruct (Hmap E i Hi) as [Mc Mn].
    pose proof (decodeInstruction_Normal_inv w i Hi) as (_ & _ & _ & _ & Hopc & _).
    pose proof (opcodeFlag_range w) as R. revert Hopc R.
    generalize (opcodeFlag w) as f. intros f Hopc R.
    assert (f = 0 \/ f = 1 \/ f = 2 \/ f = 3 \/ f = 4 \/ f = 5 \/ f = 6 \/ f = 7)
      as [-> | [-> | [-> | [-> | [-> | [-> | [-> | ->]]]]]]] by lia;
      simpl in Hopc; try discriminate; injection Hopc as Hopc;
      first [ left; split; [reflexivity |]; split; [now symmetry |];
              apply Mc; now symmetry
            | right; split; [discriminate |];
              split; [rewrite <- Hopc; discriminate |];
              apply Mn; rewrite <- Hopc; discriminate ].
Qed.

Lemma decode_ap_update_witness :
  (0 <= apThreeWord < 2 ^ 63
   /\ apUpdateFlag apThreeWord = 3
   /\ decodeInstruction apThreeWord = Throw InvalidApUpdate)
  /\ (exists i : t,
        decodeInstruction callRelWord = Normal i
        /\ (opcodeFlag callRelWord = 1 /\ opcode i = Opcode.Call
            /\ apUpdate i = ApUpdate.Add2
            \/ opcodeFlag callRelWord <> 1 /\ opcode i <> Opcode.Call
               /\ apUpdate i = ApUpdate.Ap))
  /\ (exists i : t,
        decodeInstruction jnzWord = Normal i
        /\ (opcodeFlag jnzWord = 1 /\ opcode i = Opcode.Call
            /\ apUpdate i = ApUpdate.Add2
            \/ opcodeFlag jnzWord <> 1 /\ opcode i <> Opcode.Call
               /\ apUpdate i = ApUpdate.Ap)).
Proof.
  assert (R : 0 <= apThreeWord < 2 ^ 63) by word_in_range.
  assert (Rc : 0 <= callRelWord < 2 ^ 63) by word_in_range.
  assert (Rj : 0 <= jnzWord < 2 ^ 63) by word_in_range.
  split; [| split].
  - split; [exact R | split; [reflexivity |]].
    apply (decode_ap_update apThreeWord R).
    repeat split. discriminate.
  - apply (proj2 (proj2 (proj2 (proj2 (decode_ap_update callRelWord Rc))))).
    + reflexivity.
    + reflexivity.
    + reflexivity.
    + discriminate.
    + reflexivity.
  - apply (proj2 (proj2 (proj2 (proj2 (decode_ap_update jnzWord Rj))))).
    + reflexivity.
    + reflexivity.
    + reflexivity.
    + discriminate.
    + reflexivity.
Defined.

(** C3 as stated fails: this 63-bit word holds 3 in its ap update field and
    the decoder throws InvalidOp1Register on it, not InvalidApUpdate. *)
Lemma ap_update_three_other_error :
  0 <= op1ThreeApThreeWord < 2 ^ 63
  /\ apUpdateFlag op1ThreeApThreeWord = 3
  /\ decodeInstruction op1ThreeApThreeWord = Throw InvalidOp1Register
  /\ decodeInstruction op1ThreeApThreeWord <> Throw InvalidApUpdate.
Proof.
  split; [word_in_range |]. split; [reflexivity |].
  split; [reflexivity | discriminate].
Qed.

End DecoderClaims.

(** * Properties of the bitwise handler *)

Section BlockOffsets.

Import bitwiseHandler.

(** Integers of magnitude below 2^53 are doubles. *)
Lemma roundDouble_small (z : Z) : Z.abs z < 2 ^ 53 -> roundDouble z = z.
Proof.
  intros H. unfold roundDouble.
  destruct (Z.ltb_spec (Z.abs z) (2 ^ 53)); [reflexivity | lia].
Qed.

(** On a non-negative offset the remainder [%] is the offset modulo 5. *)
Lemma bitwiseIndex_mod (o : Z) : 0 <= o -> Z.rem o cellsPerBitwise = o mod 5.
Proof. intros H. apply Z.rem_mod_nonneg; unfold cellsPerBitwise; lia. Qed.

(** An output cell is none of the two input cells of its block. *)
Lemma blockBase_ne (o : Z) :
  2 <= o mod 5 -> o <> blockBase o /\ o <> blockBase o + 1.
Proof. unfold blockBase, cellsPerBitwise. lia. Qed.

(** Below 2^53 the two offsets the handler computes are exact. *)
Lemma blockBase_exact (o : Z) :
  0 <= o < 2 ^ 53 -> 2 <= o mod 5 ->
  roundDouble (o - o mod 5) = blockBase o
  /\ roundDouble (blockBase o + 1) = blockBase o + 1.
Proof.
  intros H Hk. pose proof (Z.mod_pos_bound o 5 ltac:(lia)) as Hm.
  unfold blockBase, cellsPerBitwise.
  split; apply roundDouble_small; lia.
Qed.

(** The switch has a case for each output index. *)
Lemma switchBitwiseIndex_output (k x y : Z) :
  2 <= k < 5 -> exists n, switchBitwiseIndex k x y = Some n.
Proof.
  intros H. assert (k = 2 \/ k = 3 \/ k = 4) as [-> | [-> | ->]] by lia;
    simpl; eauto.
Qed.





End BlockOffsets.

Section HandlerSteps.

Import bitwiseHandler.

Variable Felt : Type.
Variable Felt_new : Z -> option Felt.
Variable toBigInt : Felt -> Z.
Variable JsValue : Type.
Variable Reflect_get : gmap Z (SegmentValue Felt) -> string -> JsValue.
Variable other : OtherKey -> option (SegmentValue Felt).

Local Abbreviation get :=
  (bitwiseHandler.get Felt Felt_new toBigInt JsValue Reflect_get other).

(** Reading an input cell. *)
Lemma get_input_cell (target : gmap Z (SegmentValue Felt)) (o : Z) :
  0 <= o -> o mod 5 < 2 ->
  get target (Index o) = (Normal (Element (target !! o)), target).
Proof.
  intros H0 Hk. unfold bitwiseHandler.get, getIndex.
  rewrite bitwiseIndex_mod by assumption. unfold inputCellsPerBitwise.
  destruct (Z.ltb_spec (o mod 5) 2); [reflexivity | lia].
Qed.

(** Reading an output cell below 2^53: the path through the two input
    cells. *)
Lemma get_output_cell_path (target : gmap Z (SegmentValue Felt)) (o : Z) :
  0 <= o < 2 ^ 53 -> 2 <= o mod 5 ->
  get target (Index o) =
    match target !! blockBase o with
    | None => (Throw (UndefinedValue (blockBase o)), target)
    | Some (RelocatableV _) => (Throw ExpectedFelt, target)
    | Some (FeltV xValue) =>
      match target !! (blockBase o + 1) with
      | None => (Throw (UndefinedValue (blockBase o + 1)), target)
      | Some (RelocatableV _) => (Throw ExpectedFelt, target)
      | Some (FeltV yValue) =>
        match switchBitwiseIndex (o mod 5) (toBigInt xValue) (toBigInt yValue) with
        | Some n =>
          match Felt_new n with
          | Some f => (Normal (Element (Some (FeltV f))), <[o := FeltV f]> target)
          | None => (Throw FeltError, target)
          end
        | None => (Normal (Element (target !! o)), target)
        end
      end
    end.
Proof.
  intros Hb Hk. destruct (blockBase_exact o Hb Hk) as [Ex Ey].
  unfold bitwiseHandler.get, getIndex. cbv zeta.
  rewrite bitwiseIndex_mod by lia. unfold inputCellsPerBitwise.
  destruct (Z.ltb_spec (o mod 5) 2); [lia |].
  rewrite Ex, Ey.
  destruct (target !! blockBase o) as [[xValue | r] |]; try reflexivity.
  destruct (target !! (blockBase o + 1)) as [[yValue | r] |]; try reflexivity.
  destruct (switchBitwiseIndex _ _ _); [| reflexivity].
  destruct (Felt_new _); [| reflexivity].
  now rewrite lookup_insert_eq.
Qed.

(** With two Felts in the input cells. *)
Lemma get_output_cell (target : gmap Z (SegmentValue Felt)) (o : Z) (xValue yValue : Felt) :
  0 <= o < 2 ^ 53 -> 2 <= o mod 5 ->
  target !! blockBase o = Some (FeltV xValue) ->
  target !! (blockBase o + 1) = Some (FeltV yValue) ->
  exists n,
    switchBitwiseIndex (o mod 5) (toBigInt xValue) (toBigInt yValue) = Some n
    /\ get target (Index o) =
         match Felt_new n with
         | Some f => (Normal (Element (Some (FeltV f))), <[o := FeltV f]> target)
         | None => (Throw FeltError, target)
         end.
Proof.
  intros H0 Hk Hx Hy.
  rewrite get_output_cell_path, Hx, Hy by assumption.
  pose proof (Z.mod_pos_bound o 5 ltac:(lia)) as Hb.
  destruct (switchBitwiseIndex_output (o mod 5) (toBigInt xValue) (toBigInt yValue))
    as [n ->]; [lia |].
  exists n. split; reflexivity.
Qed.

(** A read of an output cell that returns has found two Felts, built a new
    one and stored it. *)
Lemma get_output_cell_Normal_inv (target target' : gmap Z (SegmentValue Felt))
    (o : Z) (v : Value Felt JsValue) :
  0 <= o < 2 ^ 53 -> 2 <= o mod 5 ->
  get target (Index o) = (Normal v, target') ->
  exists xValue yValue n f,
    target !! blockBase o = Some (FeltV xValue)
    /\ target !! (blockBase o + 1) = Some (FeltV yValue)
    /\ switchBitwiseIndex (o mod 5) (toBigInt xValue) (toBigInt yValue) = Some n
    /\ Felt_new n = Some f
    /\ v = Element (Some (FeltV f))
    /\ target' = <[o := FeltV f]> target.
Proof.
  intros H0 Hk H. rewrite get_output_cell_path in H by assumption.
  destruct (target !! blockBase o) as [[xValue | r] |] eqn:Hx; try discriminate.
  destruct (target !! (blockBase o + 1)) as [[yValue | r] |] eqn:Hy; try discriminate.
  pose proof (Z.mod_pos_bound o 5 ltac:(lia)) as Hb.
  destruct (switchBitwiseIndex_output (o mod 5) (toBigInt xValue) (toBigInt yValue))
    as [n Hn]; [lia |].
  rewrite Hn in H.
  destruct (Felt_new n) as [f |] eqn:Hf; [| discriminate].
  injection H as <- <-. exists xValue, yValue, n, f. auto 10.
Qed.

(** The handler has no path that throws InconsistentMemory. *)
Lemma get_not_InconsistentMemory (target : gmap Z (SegmentValue Felt)) (prop : Property)
    (a : Relocatable.t) (old new : SegmentValue Felt) :
  fst (get target prop) <> Throw (InconsistentMemory a old new).
Proof.
  unfold bitwiseHandler.get, getIndex, getFraction, getInfinite.
  destruct prop as [o | fl fa fb | neg | name |]; cbv zeta;
    repeat match goal with
           | |- context [if ?c then _ else _] => destruct c
           | |- context [match ?c with _ => _ end] => destruct c
           end; discriminate.
Qed.

End HandlerSteps.

(** ** The handler over the Felt of the specification *)

Section ReadSteps.

Import bitwiseHandler.



End ReadSteps.

(** ** The handler and the specification *)

Section HandlerClaims.

Import bitwiseHandler.

Variable Felt : Type.
Variable Felt_new : Z -> option Felt.
Variable toBigInt : Felt -> Z.
Variable JsValue : Type.
Variable Reflect_get : gmap Z (SegmentValue Felt) -> string -> JsValue.
Variable other : OtherKey -> option (SegmentValue Felt).

Local Abbreviation get :=
  (bitwiseHandler.get Felt Felt_new toBigInt JsValue Reflect_get other).
Local Abbreviation reread :=
  (bitwiseHandler.reread Felt Felt_new toBigInt JsValue Reflect_get other).

(** C1, as the handler has it.  A read of the output cell at offset o,
    below 2^53, whose block input cells hold Felts hands the computed
    integer to the Felt constructor.  When the constructor returns a Felt
    the read assigns it at o directly: whatever the cell held before, the
    read returns that Felt and leaves it at o, so that a different value
    written to the cell beforehand is replaced, not rejected.  When the
    constructor throws, the read throws and leaves the array as it was.  No
    read throws InconsistentMemory. *)
Theorem output_read_overwrites (target : gmap Z (SegmentValue Felt)) (o : Z)
    (xValue yValue : Felt) :
  0 <= o < 2 ^ 53 -> 2 <= o mod 5 ->
  target !! blockBase o = Some (FeltV xValue) ->
  target !! (blockBase o + 1) = Some (FeltV yValue) ->
  exists n,
    switchBitwiseIndex (o mod 5) (toBigInt xValue) (toBigInt yValue) = Some n
    /\ (forall a old new,
          fst (get target (Index o)) <> Throw (InconsistentMemory a old new))
    /\ get target (Index o)
       = match Felt_new n with
         | Some f => (Normal (Element (Some (FeltV f))), <[o := FeltV f]> target)
         | None => (Throw FeltError, target)
         end
    /\ (forall old : SegmentValue Felt,
          get (<[o := old]> target) (Index o)
          = match Felt_new n with
            | Some f =>
              (Normal (Element (Some (FeltV f))), <[o := FeltV f]> target)
            | None => (Throw FeltError, <[o := old]> target)
            end).
Proof.
  intros H0 Hk Hx Hy.
  destruct (get_output_cell Felt Felt_new toBigInt JsValue Reflect_get other
              target o xValue yValue) as (n & Hn & Hget); try assumption.
  exists n. split; [exact Hn |]. split; [| split].
  - intros a old new. apply get_not_InconsistentMemory.
  - exact Hget.
  - intros old. destruct (blockBase_ne o Hk) as [Nx Ny].
    destruct (get_output_cell Felt Felt_new toBigInt JsValue Reflect_get other
                (<[o := old]> target) o xValue yValue)
      as (n' & Hn' & Hget'); try assumption.
    + now rewrite lookup_insert_ne.
    + now rewrite lookup_insert_ne.
    + rewrite Hn in Hn'. injection Hn' as <-. rewrite Hget'.
      destruct (Felt_new n); [| reflexivity]. now rewrite insert_insert_eq.
Qed.


(** C6.  A read of an output cell, below 2^53, that returns has stored the
    Felt it returns at that offset of the segment, changing no other cell;
    every later read of the cell on a segment with the same two input cells
    returns the same Felt, and reads repeated on the segment leave it as it
    is. *)
Theorem output_read_memoized (target target' : gmap Z (SegmentValue Felt))
    (o : Z) (v : Value Felt JsValue) :
  0 <= o < 2 ^ 53 -> 2 <= o mod 5 ->
  get target (Index o) = (Normal v, target') ->
  exists f : Felt,
    v = Element (Some (FeltV f))
    /\ target' !! o = Some (FeltV f)
    /\ target' = <[o := FeltV f]> target
    /\ get target' (Index o) = (Normal v, target')
    /\ (forall n : nat,
          reread n target' (Index o) = target'
          /\ get (reread n target' (Index o)) (Index o) = (Normal v, target'))
    /\ (forall later : gmap Z (SegmentValue Felt),
          later !! blockBase o = target !! blockBase o ->
          later !! (blockBase o + 1) = target !! (blockBase o + 1) ->
          fst (get later (Index o)) = Normal v).
Proof.
  intros H0 Hk H.
  destruct (get_output_cell_Normal_inv Felt Felt_new toBigInt JsValue
              Reflect_get other target target' o v)
    as (xValue & yValue & n & f & Hx & Hy & Hn & Hf & -> & ->); try assumption.
  destruct (blockBase_ne o Hk) as [Nx Ny].
  assert (Hlater : forall later : gmap Z (SegmentValue Felt),
            later !! blockBase o = target !! blockBase o ->
            later !! (blockBase o + 1) = target !! (blockBase o + 1) ->
            get later (Index o)
            = (Normal (Element (Some (FeltV f))), <[o := FeltV f]> later)).
  { intros later Lx Ly. rewrite Hx in Lx. rewrite Hy in Ly.
    destruct (get_output_cell Felt Felt_new toBigInt JsValue Reflect_get other
                later o xValue yValue)
      as (n' & Hn' & Hget); try assumption.
    rewrite Hn in Hn'. injection Hn' as <-. now rewrite Hf in Hget. }
  assert (Hfix : get (<[o := FeltV f]> target) (Index o)
                 = (Normal (Element (Some (FeltV f))), <[o := FeltV f]> target)).
  { rewrite Hlater by (now rewrite lookup_insert_ne).
    now rewrite insert_insert_eq. }
  exists f. split; [reflexivity |].
  split; [apply lookup_insert_eq |].
  split; [reflexivity |].
  split; [exact Hfix |].
  split.
  - assert (Hre : forall m : nat,
              reread m (<[o := FeltV f]> target) (Index o) = <[o := FeltV f]> target).
    { induction m as [| m IH]; [reflexivity |].
      cbn [bitwiseHandler.reread]. rewrite Hfix. exact IH. }
    intros k. split; [apply Hre |]. rewrite Hre. exact Hfix.
  - intros later Lx Ly. now rewrite Hlater.
Qed.

(** C7.  A read of an input cell returns what the segment holds there and
    changes nothing.  A read of an output cell, below 2^53, checks the
    input cell at block-relative offset 0 and then the one at offset 1: it
    throws UndefinedValue with the offset of the cell if the cell is
    unassigned and ExpectedFelt if it holds a Relocatable, the cell at
    offset 0 being the one that decides when both are at fault. *)
Theorem input_cells_checked_in_order (target : gmap Z (SegmentValue Felt)) (o : Z) :
  0 <= o < 2 ^ 53 ->
  (o mod 5 < 2 ->
     get target (Index o) = (Normal (Element (target !! o)), target))
  /\ (2 <= o mod 5 ->
        (target !! blockBase o = None ->
           get target (Index o) = (Throw (UndefinedValue (blockBase o)), target))
        /\ (forall r, target !! blockBase o = Some (RelocatableV r) ->
              get target (Index o) = (Throw ExpectedFelt, target))
        /\ (forall xValue, target !! blockBase o = Some (FeltV xValue) ->
              (target !! (blockBase o + 1) = None ->
                 get target (Index o)
                 = (Throw (UndefinedValue (blockBase o + 1)), target))
              /\ (forall r, target !! (blockBase o + 1) = Some (RelocatableV r) ->
                    get target (Index o) = (Throw ExpectedFelt, target)))).
Proof.
  intros H0. split.
  - intros Hk. apply get_input_cell; [lia | exact Hk].
  - intros Hk. rewrite get_output_cell_path by assumption.
    split; [intros -> ; reflexivity |].
    split; [intros r -> ; reflexivity |].
    intros xValue ->. split; [intros -> ; reflexivity | intros r -> ; reflexivity].
Qed.

End HandlerClaims.

(** ** The handler on the segments of the scenarios *)

Lemma output_read_overwrites_witness :
  read overwrittenSegment 2
  = (Normal (Element (Some (FeltV (Felt.mk 8)))), memoizedSegment).
Proof.
  destruct (output_read_overwrites Felt.t Felt.new Felt.toBigInt unit
              noReflect noOther scenarioSegment 2 (Felt.mk 12) (Felt.mk 10))
    as (n & Hn & _ & _ & H).
  - split; [discriminate | reflexivity].
  - discriminate.
  - reflexivity.
  - reflexivity.
  - injection Hn as <-. exact (H (FeltV (Felt.mk 99))).
Defined.

(** C1 as stated fails: cell 2 holds Felt(99), the computed value is
    Felt(8), and the read returns Felt(8) and puts it in the cell; it does
    not throw. *)
Lemma output_cell_overwritten :
  overwrittenSegment !! 2 = Some (FeltV (Felt.mk 99))
  /\ Felt.mk 99 <> Felt.mk 8
  /\ read overwrittenSegment 2
     = (Normal (Element (Some (FeltV (Felt.mk 8)))), memoizedSegment)
  /\ memoizedSegment !! 2 = Some (FeltV (Felt.mk 8)).
Proof.
  split; [reflexivity |]. split; [discriminate |].
  split; vm_compute; reflexivity.
Qed.



Lemma output_read_memoized_witness :
  read memoizedSegment 2
  = (Normal (Element (Some (FeltV (Felt.mk 8)))), memoizedSegment).
Proof.
  destruct (output_read_memoized Felt.t Felt.new Felt.toBigInt unit
              noReflect noOther scenarioSegment memoizedSegment 2
              (Element (Some (FeltV (Felt.mk 8)))))
    as (f & _ & _ & _ & H & _).
  - split; [discriminate | reflexivity].
  - discriminate.
  - vm_compute. reflexivity.
  - exact H.
Defined.

Lemma input_cells_checked_in_order_witness :
  read feltThenHole 2 = (Throw (UndefinedValue 1), feltThenHole)
  /\ read feltThenRelocatable 3 = (Throw ExpectedFelt, feltThenRelocatable)
  /\ read holeThenRelocatable 4 = (Throw (UndefinedValue 0), holeThenRelocatable)
  /\ read relocatableThenHole 2 = (Throw ExpectedFelt, relocatableThenHole)
  /\ read feltThenHole 0
     = (Normal (Element (Some (FeltV (Felt.mk 12)))), feltThenHole).
Proof.
  assert (R : forall o : Z, (0 <=? o) && (o <? 2 ^ 53) = true -> 0 <= o < 2 ^ 53).
  { intros o H. apply andb_true_iff in H as [H1 H2].
    apply Z.leb_le in H1. apply Z.ltb_lt in H2. auto. }
  destruct (input_cells_checked_in_order Felt.t Felt.new Felt.toBigInt unit
              noReflect noOther feltThenHole 2 (R 2 eq_refl)) as [_ H2].
  destruct (H2 ltac:(discriminate)) as (_ & _ & Hy2).
  destruct (input_cells_checked_in_order Felt.t Felt.new Felt.toBigInt unit
              noReflect noOther feltThenRelocatable 3 (R 3 eq_refl)) as [_ H3].
  destruct (H3 ltac:(discriminate)) as (_ & _ & Hy3).
  destruct (input_cells_checked_in_order Felt.t Felt.new Felt.toBigInt unit
              noReflect noOther holeThenRelocatable 4 (R 4 eq_refl)) as [_ H4].
  destruct (H4 ltac:(discriminate)) as (Hx4 & _).
  destruct (input_cells_checked_in_order Felt.t Felt.new Felt.toBigInt unit
              noReflect noOther relocatableThenHole 2 (R 2 eq_refl)) as [_ H5].
  destruct (H5 ltac:(discriminate)) as (_ & Hx5 & _).
  destruct (input_cells_checked_in_order Felt.t Felt.new Felt.toBigInt unit
              noReflect noOther feltThenHole 0 (R 0 eq_refl)) as [Hin _].
  split; [exact (proj1 (Hy2 (Felt.mk 12) eq_refl) eq_refl) |].
  split; [exact (proj2 (Hy3 (Felt.mk 12) eq_refl) (Relocatable.mk 0 0) eq_refl) |].
  split; [exact (Hx4 eq_refl) |].
  split; [exact (Hx5 (Relocatable.mk 0 0) eq_refl) |].
  exact (Hin eq_refl).
Defined.

(** * Further properties of the decoder *)

Section DecoderFields.

Import Instruction.

(** A flag field is a slice of the flags. *)
Lemma flag_field (f k m : Z) :
  0 <= k -> 0 <= m ->
  Z.land (Z.shiftr f k) (2 ^ m - 1) = (f / 2 ^ k) mod 2 ^ m.
Proof.
  intros Hk Hm. rewrite land_mask_mod by assumption.
  now rewrite Z.shiftr_div_pow2 by assumption.
Qed.

Lemma flags_div (w : Z) : flags w = w / 2 ^ 48.
Proof. unfold flags. apply Z.shiftr_div_pow2. lia. Qed.

Lemma dstRegisterFlag_slice w : dstRegisterFlag w = flags w mod 2.
Proof. apply land_1. Qed.

Lemma op0RegisterFlag_slice w : op0RegisterFlag w = (flags w / 2) mod 2.
Proof. exact (flag_field (flags w) 1 1 ltac:(lia) ltac:(lia)). Qed.

Lemma op1RegisterFlag_slice w : op1RegisterFlag w = (flags w / 4) mod 8.
Proof. exact (flag_field (flags w) 2 3 ltac:(lia) ltac:(lia)). Qed.

Lemma resLogicFlag_slice w : resLogicFlag w = (flags w / 32) mod 4.
Proof. exact (flag_field (flags w) 5 2 ltac:(lia) ltac:(lia)). Qed.

Lemma pcUpdateFlag_slice w : pcUpdateFlag w = (flags w / 128) mod 8.
Proof. exact (flag_field (flags w) 7 3 ltac:(lia) ltac:(lia)). Qed.

Lemma apUpdateFlag_slice w : apUpdateFlag w = (flags w / 1024) mod 4.
Proof. exact (flag_field (flags w) 10 2 ltac:(lia) ltac:(lia)). Qed.

Lemma opcodeFlag_slice w : opcodeFlag w = (flags w / 4096) mod 8.
Proof. exact (flag_field (flags w) 12 3 ltac:(lia) ltac:(lia)). Qed.

(** A word below [2^63] is the sum of its three offset fields and its
    flags, and the flags are the sum of the seven flag fields. *)
Lemma word_split (w : Z) :
  0 <= w ->
  w = w mod 2 ^ 16 + 2 ^ 16 * ((w / 2 ^ 16) mod 2 ^ 16)
      + 2 ^ 32 * ((w / 2 ^ 32) mod 2 ^ 16) + 2 ^ 48 * (w / 2 ^ 48).
Proof. intros H. Z.div_mod_to_equations. lia. Qed.

Lemma flags_split (f : Z) :
  0 <= f < 2 ^ 15 ->
  f = f mod 2 + 2 * ((f / 2) mod 2) + 4 * ((f / 4) mod 8)
      + 32 * ((f / 32) mod 4) + 128 * ((f / 128) mod 8)
      + 1024 * ((f / 1024) mod 4) + 4096 * ((f / 4096) mod 8).
Proof. intros H. Z.div_mod_to_equations. lia. Qed.

Lemma flags_range (w : Z) : 0 <= w < 2 ^ 63 -> 0 <= flags w < 2 ^ 15.
Proof. intros H. rewrite flags_div. Z.div_mod_to_equations. lia. Qed.

(** The other way round: the fields of a sum of fields. *)
Lemma fields_of_word (b0 b1 b2 f : Z) :
  0 <= b0 < 2 ^ 16 -> 0 <= b1 < 2 ^ 16 -> 0 <= b2 < 2 ^ 16 -> 0 <= f < 2 ^ 15 ->
  let w := b0 + 2 ^ 16 * b1 + 2 ^ 32 * b2 + 2 ^ 48 * f in
  0 <= w < 2 ^ 63
  /\ w mod 2 ^ 16 = b0
  /\ (w / 2 ^ 16) mod 2 ^ 16 = b1
  /\ (w / 2 ^ 32) mod 2 ^ 16 = b2
  /\ w / 2 ^ 48 = f.
Proof. intros H0 H1 H2 Hf w. subst w. Z.div_mod_to_equations. lia. Qed.

Lemma fields_of_flags (a b c d e g h : Z) :
  0 <= a < 2 -> 0 <= b < 2 -> 0 <= c < 8 -> 0 <= d < 4 ->
  0 <= e < 8 -> 0 <= g < 4 -> 0 <= h < 8 ->
  let f := a + 2 * b + 4 * c + 32 * d + 128 * e + 1024 * g + 4096 * h in
  0 <= f < 2 ^ 15
  /\ f mod 2 = a /\ (f / 2) mod 2 = b /\ (f / 4) mod 8 = c
  /\ (f / 32) mod 4 = d /\ (f / 128) mod 8 = e
  /\ (f / 1024) mod 4 = g /\ (f / 4096) mod 8 = h.
Proof. intros Ha Hb Hc Hd He Hg Hh f. subst f. Z.div_mod_to_equations. lia. Qed.

End DecoderFields.

Section DecoderInverse.

Import Instruction.

(** Each switch, read backwards: the flag a decoded value comes from. *)
Lemma switchDstRegister_flag f r :
  0 <= f < 2 -> switchDstRegister f = Normal r ->
  f = registerFlag r /\ r <> Register.Pc.
Proof.
  intros H E. assert (f = 0 \/ f = 1) as [-> | ->] by lia;
    simpl in E; injection E as <-; (split; [reflexivity | discriminate]).
Qed.

Lemma switchOp0Register_flag f r :
  0 <= f < 2 -> switchOp0Register f = Normal r ->
  f = registerFlag r /\ r <> Register.Pc.
Proof.
  intros H E. assert (f = 0 \/ f = 1) as [-> | ->] by lia;
    simpl in E; injection E as <-; (split; [reflexivity | discriminate]).
Qed.

Ltac eight_cases f :=
  assert (f = 0 \/ f = 1 \/ f = 2 \/ f = 3 \/ f = 4 \/ f = 5 \/ f = 6 \/ f = 7)
    as [-> | [-> | [-> | [-> | [-> | [-> | [-> | ->]]]]]]] by lia.

Ltac four_cases f :=
  assert (f = 0 \/ f = 1 \/ f = 2 \/ f = 3) as [-> | [-> | [-> | ->]]] by lia.

Lemma switchOp1Register_flag f r :
  0 <= f < 8 -> switchOp1Register f = Normal r -> f = op1SrcFlag r.
Proof.
  intros H E. eight_cases f; simpl in E; try discriminate;
    injection E as <-; reflexivity.
Qed.

Lemma switchPcUpdate_flag f r :
  0 <= f < 8 -> switchPcUpdate f = Normal r -> f = pcUpdateFlagOf r.
Proof.
  intros H E. eight_cases f; simpl in E; try discriminate;
    injection E as <-; reflexivity.
Qed.

Lemma switchOpcode_flag f r :
  0 <= f < 8 -> switchOpcode f = Normal r -> f = opcodeFlagOf r.
Proof.
  intros H E. eight_cases f; simpl in E; try discriminate;
    injection E as <-; reflexivity.
Qed.

Lemma switchResLogic_flag f pc r :
  0 <= f < 4 -> switchResLogic f pc = Normal r ->
  f = resLogicFlagOf r
  /\ (r = ResLogic.Unused -> pc = PcUpdate.Jnz)
  /\ (r = ResLogic.Op1 -> pc <> PcUpdate.Jnz).
Proof.
  intros H E. four_cases f; simpl in E; try discriminate; injection E as <-;
    try (split; [reflexivity | split; discriminate]).
  destruct pc; simpl; (split; [reflexivity | split; congruence]).
Qed.

Lemma switchApUpdate_flag f opc r :
  0 <= f < 4 -> switchApUpdate f opc = Normal r ->
  f = apUpdateFlagOf r
  /\ (r = ApUpdate.Add2 -> opc = Opcode.Call)
  /\ (r = ApUpdate.Ap -> opc <> Opcode.Call).
Proof.
  intros H E. four_cases f; simpl in E; try discriminate; injection E as <-;
    try (split; [reflexivity | split; discriminate]).
  destruct opc; simpl; (split; [reflexivity | split; congruence]).
Qed.

(** The two register switches of a successful decoding. *)
Lemma decodeInstruction_Normal_registers (w : Z) (i : t) :
  decodeInstruction w = Normal i ->
  switchDstRegister (dstRegisterFlag w) = Normal (dstRegister i)
  /\ switchOp0Register (op0RegisterFlag w) = Normal (op0Register i).
Proof.
  intros H. pose proof (decodeInstruction_Normal_inv w i H) as [Hw _].
  unfold decodeInstruction in H.
  rewrite (proj2 (shiftr_63_zero w) Hw) in H.
  change (negb (0 =? 0)) with false in H. cbv iota in H.
  apply bind_Normal_inv in H as (dr & Hd & H).
  apply bind_Normal_inv in H as (o0 & H0 & H).
  apply bind_Normal_inv in H as (op1 & _ & H).
  apply bind_Normal_inv in H as (pc & _ & H).
  apply bind_Normal_inv in H as (res & _ & H).
  apply bind_Normal_inv in H as (opc & _ & H).
  apply bind_Normal_inv in H as (ap & _ & H).
  injection H as <-. cbn [dstRegister op0Register]. auto.
Qed.

(** The decoder returns the instruction its seven switches return. *)
Lemma decodeInstruction_build (w : Z) dr o0 op1 pc res opc ap :
  0 <= w < 2 ^ 63 ->
  switchDstRegister (dstRegisterFlag w) = Normal dr ->
  switchOp0Register (op0RegisterFlag w) = Normal o0 ->
  switchOp1Register (op1RegisterFlag w) = Normal op1 ->
  switchPcUpdate (pcUpdateFlag w) = Normal pc ->
  switchResLogic (resLogicFlag w) pc = Normal res ->
  switchOpcode (opcodeFlag w) = Normal opc ->
  switchApUpdate (apUpdateFlag w) opc = Normal ap ->
  decodeInstruction w
  = Normal (mk (fromBiased (Z.land w 0xffff))
               (fromBiased (Z.land (Z.shiftr w 16) 0xffff))
               (fromBiased (Z.land (Z.shiftr w 32) 0xffff))
               dr o0 op1 res pc ap (switchFpUpdate opc) opc).
Proof.
  intros Hw Hd H0 H1 Hp Hr Ho Ha. unfold decodeInstruction.
  rewrite (proj2 (shiftr_63_zero w) Hw).
  change (negb (0 =? 0)) with false. cbv iota.
  rewrite Hd, bind_Normal, H0, bind_Normal, H1, bind_Normal, Hp, bind_Normal.
  rewrite Hr, bind_Normal, Ho, bind_Normal, Ha, bind_Normal. reflexivity.
Qed.

(** A decoded instruction tells the word it was decoded from. *)
Lemma decodeInstruction_wordOf (w : Z) (i : t) :
  decodeInstruction w = Normal i -> w = wordOf i.
Proof.
  intros H.
  destruct (decodeInstruction_Normal_registers w i H) as [Hd H0].
  apply decodeInstruction_Normal_inv in H
    as (Hw & H1 & Hp & Hr & Ho & Ha & _ & Ed & E0 & E1).
  apply switchDstRegister_flag in Hd as [Hd _]; [| apply dstRegisterFlag_range].
  apply switchOp0Register_flag in H0 as [H0 _]; [| apply op0RegisterFlag_range].
  apply switchOp1Register_flag in H1; [| apply op1RegisterFlag_range].
  apply switchPcUpdate_flag in Hp; [| apply pcUpdateFlag_range].
  apply switchResLogic_flag in Hr as [Hr _]; [| apply resLogicFlag_range].
  apply switchOpcode_flag in Ho; [| apply opcodeFlag_range].
  apply switchApUpdate_flag in Ha as [Ha _]; [| apply apUpdateFlag_range].
  unfold wordOf, flagsOf. rewrite Ed, E0, E1, <- Hd, <- H0, <- H1, <- Hp, <- Hr, <- Ho, <- Ha.
  unfold fromBiased. rewrite !land_ffff, !Z.shiftr_div_pow2 by lia.
  rewrite dstRegisterFlag_slice, op0RegisterFlag_slice, op1RegisterFlag_slice,
    resLogicFlag_slice, pcUpdateFlag_slice, apUpdateFlag_slice, opcodeFlag_slice.
  rewrite <- (flags_split (flags w)) by (apply flags_range; exact Hw).
  rewrite flags_div.
  pose proof (word_split w ltac:(lia)) as S. lia.
Qed.

End DecoderInverse.

Section DecoderImage.

Import Instruction.

Lemma offsetInRange_biased (o : Z) :
  offsetInRange o = true -> 0 <= o + BIAS < 2 ^ 16.
Proof.
  unfold offsetInRange, BIAS. rewrite andb_true_iff, Z.leb_le, Z.ltb_lt. lia.
Qed.

Lemma FpUpdate_eqb_eq (a b : FpUpdate.t) : FpUpdate_eqb a b = true <-> a = b.
Proof. destruct a, b; simpl; split; congruence. Qed.

(** The flag fields and the offset fields of [wordOf i]. *)
Lemma wordOf_fields (i : t) :
  offsetInRange (dstOffset i) = true ->
  offsetInRange (op0Offset i) = true ->
  offsetInRange (op1Offset i) = true ->
  0 <= wordOf i < 2 ^ 63
  /\ (Z.land (wordOf i) 0xffff = dstOffset i + BIAS
      /\ Z.land (Z.shiftr (wordOf i) 16) 0xffff = op0Offset i + BIAS
      /\ Z.land (Z.shiftr (wordOf i) 32) 0xffff = op1Offset i + BIAS)
  /\ dstRegisterFlag (wordOf i) = registerFlag (dstRegister i)
  /\ op0RegisterFlag (wordOf i) = registerFlag (op0Register i)
  /\ op1RegisterFlag (wordOf i) = op1SrcFlag (op1Register i)
  /\ resLogicFlag (wordOf i) = resLogicFlagOf (resLogic i)
  /\ pcUpdateFlag (wordOf i) = pcUpdateFlagOf (pcUpdate i)
  /\ apUpdateFlag (wordOf i) = apUpdateFlagOf (apUpdate i)
  /\ opcodeFlag (wordOf i) = opcodeFlagOf (opcode i).
Proof.
  intros Rd R0 R1.
  apply offsetInRange_biased in Rd, R0, R1.
  assert (Fa : 0 <= registerFlag (dstRegister i) < 2)
    by (destruct (dstRegister i); simpl; lia).
  assert (Fb : 0 <= registerFlag (op0Register i) < 2)
    by (destruct (op0Register i); simpl; lia).
  assert (Fc : 0 <= op1SrcFlag (op1Register i) < 8)
    by (destruct (op1Register i); simpl; lia).
  assert (Fd : 0 <= resLogicFlagOf (resLogic i) < 4)
    by (destruct (resLogic i); simpl; lia).
  assert (Fe : 0 <= pcUpdateFlagOf (pcUpdate i) < 8)
    by (destruct (pcUpdate i); simpl; lia).
  assert (Fg : 0 <= apUpdateFlagOf (apUpdate i) < 4)
    by (destruct (apUpdate i); simpl; lia).
  assert (Fh : 0 <= opcodeFlagOf (opcode i) < 8)
    by (destruct (opcode i); simpl; lia).
  destruct (fields_of_flags _ _ _ _ _ _ _ Fa Fb Fc Fd Fe Fg Fh)
    as (Hf & Ea & Eb & Ec & Ed & Ee & Eg & Eh).
  fold (flagsOf i) in Hf, Ea, Eb, Ec, Ed, Ee, Eg, Eh.
  destruct (fields_of_word _ _ _ _ Rd R0 R1 Hf) as (Hw & W0 & W1 & W2 & Wf).
  fold (wordOf i) in Hw, W0, W1, W2, Wf.
  assert (Efl : flags (wordOf i) = flagsOf i) by (now rewrite flags_div).
  split; [exact Hw |]. split.
  - rewrite !land_ffff, !Z.shiftr_div_pow2 by lia. auto.
  - rewrite dstRegisterFlag_slice, op0RegisterFlag_slice, op1RegisterFlag_slice,
      resLogicFlag_slice, pcUpdateFlag_slice, apUpdateFlag_slice, opcodeFlag_slice.
    rewrite Efl. auto 10.
Qed.

(** A decodable instruction is decoded from its word. *)
Lemma decodeInstruction_wordOf_decodable (i : t) :
  decodable i = true -> decodeInstruction (wordOf i) = Normal i.
Proof.
  unfold decodable. rewrite !andb_true_iff.
  intros [[[[[[[Rd R0] R1] Hdr] Hor] Hres] Hap] Hfp].
  destruct (wordOf_fields i Rd R0 R1)
    as (Hw & (Od & O0 & O1) & Fa & Fb & Fc & Fd & Fe & Fg & Fh).
  rewrite (decodeInstruction_build (wordOf i) (dstRegister i) (op0Register i)
             (op1Register i) (pcUpdate i) (resLogic i) (opcode i) (apUpdate i)).
  - rewrite Od, O0, O1. apply FpUpdate_eqb_eq in Hfp. rewrite <- Hfp.
    unfold fromBiased. rewrite !Z.add_simpl_r. destruct i; reflexivity.
  - exact Hw.
  - rewrite Fa. destruct (dstRegister i); [discriminate | reflexivity | reflexivity].
  - rewrite Fb. destruct (op0Register i); [discriminate | reflexivity | reflexivity].
  - rewrite Fc. destruct (op1Register i); reflexivity.
  - rewrite Fe. destruct (pcUpdate i); reflexivity.
  - rewrite Fd. destruct (resLogic i), (pcUpdate i);
      try reflexivity; discriminate.
  - rewrite Fh. destruct (opcode i); reflexivity.
  - rewrite Fg. destruct (apUpdate i), (opcode i);
      try reflexivity; discriminate.
Qed.

(** What the decoder returns is decodable. *)
Lemma decodeInstruction_decodable (w : Z) (i : t) :
  decodeInstruction w = Normal i -> decodable i = true.
Proof.
  intros H.
  destruct (decodeInstruction_Normal_registers w i H) as [Hd H0].
  apply decodeInstruction_Normal_inv in H
    as (Hw & _ & _ & Hr & _ & Ha & Hfp & Ed & E0 & E1).
  unfold fromBiased, BIAS in Ed, E0, E1. rewrite land_ffff in Ed, E0, E1.
  pose proof (Z.mod_pos_bound w (2 ^ 16) ltac:(lia)) as Bd.
  pose proof (Z.mod_pos_bound (Z.shiftr w 16) (2 ^ 16) ltac:(lia)) as B0.
  pose proof (Z.mod_pos_bound (Z.shiftr w 32) (2 ^ 16) ltac:(lia)) as B1.
  apply switchDstRegister_flag in Hd as [_ Hd]; [| apply dstRegisterFlag_range].
  apply switchOp0Register_flag in H0 as [_ H0]; [| apply op0RegisterFlag_range].
  apply switchResLogic_flag in Hr as (_ & Hr1 & Hr2); [| apply resLogicFlag_range].
  apply switchApUpdate_flag in Ha as (_ & Ha1 & Ha2); [| apply apUpdateFlag_range].
  unfold decodable, offsetInRange. rewrite !andb_true_iff, !Z.leb_le, !Z.ltb_lt.
  repeat split; try lia.
  - destruct (dstRegister i); [congruence | reflexivity | reflexivity].
  - destruct (op0Register i); [congruence | reflexivity | reflexivity].
  - destruct (resLogic i); try reflexivity.
    + destruct (pcUpdate i); try reflexivity. now elim Hr2.
    + now rewrite Hr1.
  - destruct (apUpdate i); try reflexivity.
    + destruct (opcode i); try reflexivity. now elim Ha2.
    + now rewrite Ha1.
  - rewrite Hfp. destruct (opcode i); reflexivity.
Qed.

End DecoderImage.

(** ** What else the decoder does *)

Section DecoderExtras.

Import Instruction.

Ltac in_range := vm_compute; split; [discriminate | reflexivity].

(** X1.  On every integer, negative ones included, the decoder throws
    HighBitSetError exactly when the word is outside [0, 2^63): a negative
    bigint shifted right is never zero. *)
Theorem high_bit_every_integer (w : Z) :
  decodeInstruction w = Throw HighBitSetError <-> w < 0 \/ 2 ^ 63 <= w.
Proof.
  split.
  - intros H.
    destruct (Z_lt_dec w 0) as [Hn | Hn]; [auto |].
    destruct (Z_le_dec (2 ^ 63) w) as [Hh | Hh]; [auto |].
    apply decodeInstruction_Throw_iff in H; [| lia].
    unfold firstInvalid in H.
    repeat match type of H with
           | (if ?c then _ else _) = _ => destruct c
           end; discriminate.
  - intros H. apply decodeInstruction_high. lia.
Qed.

(** X2.  The decoder returns an instruction exactly on the words in
    [0, 2^63) whose op1, pc update and opcode fields are one-hot or zero and
    whose res logic and ap update fields are not 3. *)
Theorem decoder_accepts_iff (w : Z) :
  (exists i : t, decodeInstruction w = Normal i)
  <-> 0 <= w < 2 ^ 63
      /\ oneHot (op1RegisterFlag w) = true
      /\ oneHot (pcUpdateFlag w) = true
      /\ resLogicFlag w <> 3
      /\ oneHot (opcodeFlag w) = true
      /\ apUpdateFlag w <> 3.
Proof.
  split.
  - intros [i H].
    pose proof (decodeInstruction_Normal_inv w i H) as [Hw _].
    split; [exact Hw |].
    pose proof (decodeInstruction_firstInvalid w Hw) as F.
    unfold firstInvalid in F.
    destruct (oneHot (op1RegisterFlag w)); cbn [negb] in F; [| congruence].
    destruct (oneHot (pcUpdateFlag w)); cbn [negb] in F; [| congruence].
    destruct (Z.eqb_spec (resLogicFlag w) 3); [congruence |].
    destruct (oneHot (opcodeFlag w)); cbn [negb] in F; [| congruence].
    destruct (Z.eqb_spec (apUpdateFlag w) 3); [congruence |].
    auto.
  - intros (Hw & H1 & Hp & Hr & Ho & Ha).
    pose proof (decodeInstruction_firstInvalid w Hw) as F.
    unfold firstInvalid in F. rewrite H1, Hp, Ho in F. cbn [negb] in F.
    apply Z.eqb_neq in Hr, Ha. rewrite Hr, Ha in F. exact F.
Qed.

Lemma decoder_accepts_iff_witness :
  exists i : t, decodeInstruction retWord = Normal i.
Proof.
  apply (proj2 (decoder_accepts_iff retWord)).
  split; [in_range |]. repeat split; discriminate.
Defined.

(** X3.  On a 63-bit word the pc update field, bits 7..9 of the flags,
    decodes 0 to Regular, 1 to Jump, 2 to JumpRel and 4 to Jnz: a word with
    one of these values and legal other fields decodes, to an instruction
    with that pc update.  The decoder throws InvalidPcUpdate exactly when
    the op1 field is legal and the pc update field is 3, 5, 6 or 7. *)
Theorem decode_pc_update (w : Z) :
  0 <= w < 2 ^ 63 ->
  pcUpdateFlag w = (w / 2 ^ 55) mod 8
  /\ (decodeInstruction w = Throw InvalidPcUpdate
      <-> oneHot (op1RegisterFlag w) = true
          /\ (pcUpdateFlag w = 3 \/ pcUpdateFlag w = 5
              \/ pcUpdateFlag w = 6 \/ pcUpdateFlag w = 7))
  /\ (forall i : t, decodeInstruction w = Normal i ->
        (pcUpdateFlag w = 0 /\ pcUpdate i = PcUpdate.Regular)
        \/ (pcUpdateFlag w = 1 /\ pcUpdate i = PcUpdate.Jump)
        \/ (pcUpdateFlag w = 2 /\ pcUpdate i = PcUpdate.JumpRel)
        \/ (pcUpdateFlag w = 4 /\ pcUpdate i = PcUpdate.Jnz))
  /\ (oneHot (op1RegisterFlag w) = true ->
      resLogicFlag w <> 3 ->
      oneHot (opcodeFlag w) = true ->
      apUpdateFlag w <> 3 ->
      (pcUpdateFlag w = 0 ->
         exists i : t, decodeInstruction w = Normal i
                       /\ pcUpdate i = PcUpdate.Regular)
      /\ (pcUpdateFlag w = 1 ->
            exists i : t, decodeInstruction w = Normal i
                          /\ pcUpdate i = PcUpdate.Jump)
      /\ (pcUpdateFlag w = 2 ->
            exists i : t, decodeInstruction w = Normal i
                          /\ pcUpdate i = PcUpdate.JumpRel)
      /\ (pcUpdateFlag w = 4 ->
            exists i : t, decodeInstruction w = Normal i
                          /\ pcUpdate i = PcUpdate.Jnz)).
Proof.
  intros Hw.
  assert (Hmap : forall i : t, decodeInstruction w = Normal i ->
            (pcUpdateFlag w = 0 /\ pcUpdate i = PcUpdate.Regular)
            \/ (pcUpdateFlag w = 1 /\ pcUpdate i = PcUpdate.Jump)
            \/ (pcUpdateFlag w = 2 /\ pcUpdate i = PcUpdate.JumpRel)
            \/ (pcUpdateFlag w = 4 /\ pcUpdate i = PcUpdate.Jnz)).
  { intros i H. apply decodeInstruction_Normal_inv in H as (_ & _ & H & _).
    pose proof (pcUpdateFlag_range w) as R. revert H R.
    generalize (pcUpdateFlag w) as f. intros f H R.
    assert (f = 0 \/ f = 1 \/ f = 2 \/ f = 3 \/ f = 4 \/ f = 5 \/ f = 6 \/ f = 7)
      as [-> | [-> | [-> | [-> | [-> | [-> | [-> | ->]]]]]]] by lia;
      simpl in H; try discriminate; injection H as <-; auto. }
  split; [| split; [| split]].
  - unfold pcUpdateFlag. rewrite land_7. apply (flag_slice w 7 8); lia.
  - rewrite decodeInstruction_Throw_iff by assumption.
    rewrite <- oneHot_false by apply pcUpdateFlag_range.
    unfold firstInvalid.
    destruct (oneHot (op1RegisterFlag w)); cbn [negb];
      [| split; [discriminate | intros [? _]; discriminate]].
    destruct (oneHot (pcUpdateFlag w)); cbn [negb]; [| tauto].
    split; [| intros [_ ?]; discriminate]. intros H.
    repeat match type of H with
           | (if ?c then _ else _) = _ => destruct c
           end; discriminate.
  - exact Hmap.
  - intros H1 Hr Ho Ha.
    assert (Hacc : oneHot (pcUpdateFlag w) = true ->
              exists i : t, decodeInstruction w = Normal i).
    { intros Hp. now apply decodeInstruction_accepts. }
    repeat split; intros E;
      (destruct Hacc as [i Hi]; [rewrite E; reflexivity |]);
      exists i; (split; [exact Hi |]);
      destruct (Hmap i Hi) as [[E' M] | [[E' M] | [[E' M] | [E' M]]]];
      first [exact M | rewrite E in E'; discriminate E'].
Qed.

Lemma decode_pc_update_witness :
  (0 <= pcThreeWord < 2 ^ 63
   /\ pcUpdateFlag pcThreeWord = 3
   /\ decodeInstruction pcThreeWord = Throw InvalidPcUpdate)
  /\ (pcUpdateFlag jnzWord = 4
      /\ exists i : t, decodeInstruction jnzWord = Normal i
                       /\ pcUpdate i = PcUpdate.Jnz)
  /\ (pcUpdateFlag retWord = 1
      /\ exists i : t, decodeInstruction retWord = Normal i
                       /\ pcUpdate i = PcUpdate.Jump).
Proof.
  assert (R : 0 <= pcThreeWord < 2 ^ 63) by in_range.
  assert (Rj : 0 <= jnzWord < 2 ^ 63) by in_range.
  assert (Rr : 0 <= retWord < 2 ^ 63) by in_range.
  split; [| split].
  - split; [exact R | split; [reflexivity |]].
    apply (decode_pc_update pcThreeWord R).
    split; [reflexivity | left; reflexivity].
  - split; [reflexivity |].
    apply (proj2 (proj2 (proj2 (decode_pc_update jnzWord Rj)))).
    + reflexivity.
    + discriminate.
    + reflexivity.
    + discriminate.
    + reflexivity.
  - split; [reflexivity |].
    apply (proj2 (proj2 (proj2 (decode_pc_update retWord Rr)))).
    + reflexivity.
    + discriminate.
    + reflexivity.
    + discriminate.
    + reflexivity.
Defined.

(** X4.  On a 63-bit word the opcode field, bits 12..14 of the flags,
    decodes 0 to NoOp, 1 to Call, 2 to Ret and 4 to AssertEq, and the fp
    update is derived from the opcode: ApPlus2 for Call, Dst for Ret, Fp
    for the two others; a word with one of these values and legal other
    fields decodes, to an instruction with that opcode and fp update.  The
    decoder throws InvalidOpcode exactly when the op1 and pc update fields
    are legal, the res logic field is not 3 and the opcode field is 3, 5,
    6 or 7. *)
Theorem decode_opcode_fp_update (w : Z) :
  0 <= w < 2 ^ 63 ->
  opcodeFlag w = (w / 2 ^ 60) mod 8
  /\ (decodeInstruction w = Throw InvalidOpcode
      <-> oneHot (op1RegisterFlag w) = true
          /\ oneHot (pcUpdateFlag w) = true
          /\ resLogicFlag w <> 3
          /\ (opcodeFlag w = 3 \/ opcodeFlag w = 5
              \/ opcodeFlag w = 6 \/ opcodeFlag w = 7))
  /\ (forall i : t, decodeInstruction w = Normal i ->
        (opcodeFlag w = 0 /\ opcode i = Opcode.NoOp /\ fpUpdate i = FpUpdate.Fp)
        \/ (opcodeFlag w = 1 /\ opcode i = Opcode.Call
            /\ fpUpdate i = FpUpdate.ApPlus2)
        \/ (opcodeFlag w = 2 /\ opcode i = Opcode.Ret /\ fpUpdate i = FpUpdate.Dst)
        \/ (opcodeFlag w = 4 /\ opcode i = Opcode.AssertEq
            /\ fpUpdate i = FpUpdate.Fp))
  /\ (oneHot (op1RegisterFlag w) = true ->
      oneHot (pcUpdateFlag w) = true ->
      resLogicFlag w <> 3 ->
      apUpdateFlag w <> 3 ->
      (opcodeFlag w = 0 ->
         exists i : t, decodeInstruction w = Normal i
                       /\ opcode i = Opcode.NoOp /\ fpUpdate i = FpUpdate.Fp)
      /\ (opcodeFlag w = 1 ->
            exists i : t, decodeInstruction w = Normal i
                          /\ opcode i = Opcode.Call
                          /\ fpUpdate i = FpUpdate.ApPlus2)
      /\ (opcodeFlag w = 2 ->
            exists i : t, decodeInstruction w = Normal i
                          /\ opcode i = Opcode.Ret /\ fpUpdate i = FpUpdate.Dst)
      /\ (opcodeFlag w = 4 ->
            exists i : t, decodeInstruction w = Normal i
                          /\ opcode i = Opcode.AssertEq
                          /\ fpUpdate i = FpUpdate.Fp)).
Proof.
  intros Hw.
  assert (Hmap : forall i : t, decodeInstruction w = Normal i ->
            (opcodeFlag w = 0 /\ opcode i = Opcode.NoOp
             /\ fpUpdate i = FpUpdate.Fp)
            \/ (opcodeFlag w = 1 /\ opcode i = Opcode.Call
                /\ fpUpdate i = FpUpdate.ApPlus2)
            \/ (opcodeFlag w = 2 /\ opcode i = Opcode.Ret
                /\ fpUpdate i = FpUpdate.Dst)
            \/ (opcodeFlag w = 4 /\ opcode i = Opcode.AssertEq
                /\ fpUpdate i = FpUpdate.Fp)).
  { intros i H.
    apply decodeInstruction_Normal_inv in H as (_ & _ & _ & _ & H & _ & -> & _).
    pose proof (opcodeFlag_range w) as R. revert H R.
    generalize (opcodeFlag w) as f. intros f H R.
    assert (f = 0 \/ f = 1 \/ f = 2 \/ f = 3 \/ f = 4 \/ f = 5 \/ f = 6 \/ f = 7)
      as [-> | [-> | [-> | [-> | [-> | [-> | [-> | ->]]]]]]] by lia;
      simpl in H; try discriminate; injection H as <-; simpl; auto 10. }
  split; [| split; [| split]].
  - unfold opcodeFlag. rewrite land_7. apply (flag_slice w 12 8); lia.
  - rewrite decodeInstruction_Throw_iff by assumption.
    rewrite <- oneHot_false by apply opcodeFlag_range.
    unfold firstInvalid.
    destruct (oneHot (op1RegisterFlag w)); cbn [negb];
      [| split; [discriminate | intros [? _]; discriminate]].
    destruct (oneHot (pcUpdateFlag w)); cbn [negb];
      [| split; [discriminate | intros (_ & ? & _); discriminate]].
    destruct (Z.eqb_spec (resLogicFlag w) 3) as [E | E];
      [split; [discriminate | tauto] |].
    destruct (oneHot (opcodeFlag w)); cbn [negb]; [| tauto].
    split; [| intros (_ & _ & _ & ?); discriminate]. intros H.
    destruct (apUpdateFlag w =? 3); discriminate.
  - exact Hmap.
  - intros H1 Hp Hr Ha.
    assert (Hacc : oneHot (opcodeFlag w) = true ->
              exists i : t, decodeInstruction w = Normal i).
    { intros Ho. now apply decodeInstruction_accepts. }
    repeat split; intros E;
      (destruct Hacc as [i Hi]; [rewrite E; reflexivity |]);
      exists i; (split; [exact Hi |]);
      destruct (Hmap i Hi) as [[E' M] | [[E' M] | [[E' M] | [E' M]]]];
      first [exact M | rewrite E in E'; discriminate E'].
Qed.

Lemma decode_opcode_fp_update_witness :
  (0 <= opcodeThreeWord < 2 ^ 63
   /\ opcodeFlag opcodeThreeWord = 3
   /\ decodeInstruction opcodeThreeWord = Throw InvalidOpcode)
  /\ (opcodeFlag retWord = 2
      /\ exists i : t, decodeInstruction retWord = Normal i
                       /\ opcode i = Opcode.Ret /\ fpUpdate i = FpUpdate.Dst)
  /\ (opcodeFlag callRelWord = 1
      /\ exists i : t, decodeInstruction callRelWord = Normal i
                       /\ opcode i = Opcode.Call
                       /\ fpUpdate i = FpUpdate.ApPlus2).
Proof.
  assert (R : 0 <= opcodeThreeWord < 2 ^ 63) by in_range.
  assert (Rr : 0 <= retWord < 2 ^ 63) by in_range.
  assert (Rc : 0 <= callRelWord < 2 ^ 63) by in_range.
  split; [| split].
  - split; [exact R | split; [reflexivity |]].
    apply (decode_opcode_fp_update opcodeThreeWord R).
    repeat split; [discriminate | left; reflexivity].
  - split; [reflexivity |].
    apply (proj2 (proj2 (proj2 (decode_opcode_fp_update retWord Rr)))).
    + reflexivity.
    + reflexivity.
    + discriminate.
    + discriminate.
    + reflexivity.
  - split; [reflexivity |].
    apply (proj2 (proj2 (proj2 (decode_opcode_fp_update callRelWord Rc)))).
    + reflexivity.
    + reflexivity.
    + discriminate.
    + discriminate.
    + reflexivity.
Defined.

(** X5.  In a decoded instruction the dst and op0 registers come from bits
    0 and 1 of the flags, 0 for Ap and 1 for Fp; neither is ever Pc. *)
Theorem decode_registers (w : Z) (i : t) :
  decodeInstruction w = Normal i ->
  (dstRegisterFlag w = (w / 2 ^ 48) mod 2
   /\ op0RegisterFlag w = (w / 2 ^ 49) mod 2)
  /\ ((dstRegisterFlag w = 0 /\ dstRegister i = Register.Ap)
      \/ (dstRegisterFlag w = 1 /\ dstRegister i = Register.Fp))
  /\ ((op0RegisterFlag w = 0 /\ op0Register i = Register.Ap)
      \/ (op0RegisterFlag w = 1 /\ op0Register i = Register.Fp)).
Proof.
  intros H. destruct (decodeInstruction_Normal_registers w i H) as [Hd H0].
  split; [split |].
  - rewrite dstRegisterFlag_slice. now rewrite flags_div.
  - unfold op0RegisterFlag. rewrite land_1. apply (flag_slice w 1 2); lia.
  - pose proof (dstRegisterFlag_range w) as Rd.
    pose proof (op0RegisterFlag_range w) as R0.
    revert Hd H0 Rd R0.
    generalize (dstRegisterFlag w) as a, (op0RegisterFlag w) as b.
    intros a b Hd H0 Rd R0.
    assert (a = 0 \/ a = 1) as [-> | ->] by lia;
      assert (b = 0 \/ b = 1) as [-> | ->] by lia;
      simpl in Hd, H0; injection Hd as <-; injection H0 as <-; auto.
Qed.

Lemma decode_registers_witness :
  dstRegisterFlag retWord = 1 /\ dstRegister retInstruction = Register.Fp.
Proof.
  destruct (decode_registers retWord retInstruction eq_refl)
    as (_ & [[E _] | H] & _); [discriminate E | exact H].
Defined.

(** X6.  In a decoded instruction the ap update comes from bits 10..11 of
    the flags: 1 gives AddRes, 2 gives Add1, and 0 gives Add2 with the
    opcode Call and Ap with any other opcode. *)
Theorem decode_ap_update_values (w : Z) (i : t) :
  decodeInstruction w = Normal i ->
  (apUpdateFlag w = 0 /\ opcode i = Opcode.Call /\ apUpdate i = ApUpdate.Add2)
  \/ (apUpdateFlag w = 0 /\ opcode i <> Opcode.Call /\ apUpdate i = ApUpdate.Ap)
  \/ (apUpdateFlag w = 1 /\ apUpdate i = ApUpdate.AddRes)
  \/ (apUpdateFlag w = 2 /\ apUpdate i = ApUpdate.Add1).
Proof.
  intros H.
  apply decodeInstruction_Normal_inv in H as (_ & _ & _ & _ & _ & H & _).
  pose proof (apUpdateFlag_range w) as R. revert H R.
  generalize (apUpdateFlag w) as f. intros f H R.
  assert (f = 0 \/ f = 1 \/ f = 2 \/ f = 3) as [-> | [-> | [-> | ->]]] by lia;
    simpl in H; try discriminate; injection H as <-; auto.
  destruct (opcode i); simpl; auto;
    right; left; (split; [reflexivity | split; [discriminate | reflexivity]]).
Qed.

Lemma decode_ap_update_values_witness :
  apUpdateFlag addApWord = 1 /\ apUpdate addApInstruction = ApUpdate.AddRes.
Proof.
  destruct (decode_ap_update_values addApWord addApInstruction eq_refl)
    as [(E & _) | [(E & _) | [H | (E & _)]]];
    [discriminate E | discriminate E | exact H | discriminate E].
Defined.

End DecoderExtras.

Section DecoderBijection.

Import Instruction.

(** X7.  The decoding loses nothing: two words that decode to the same
    instruction are the same word. *)
Theorem decode_injective (w1 w2 : Z) (i : t) :
  decodeInstruction w1 = Normal i ->
  decodeInstruction w2 = Normal i ->
  w1 = w2.
Proof.
  intros H1 H2.
  rewrite (decodeInstruction_wordOf w1 i H1).
  now rewrite (decodeInstruction_wordOf w2 i H2).
Qed.

Lemma decode_injective_witness : jnzWord = wordOf jnzInstruction.
Proof.
  apply (decode_injective jnzWord (wordOf jnzInstruction) jnzInstruction).
  - reflexivity.
  - reflexivity.
Defined.

(** X8.  The instructions the decoder can return are exactly the decodable
    ones: offsets in [-2^15, 2^15), dst and op0 registers other than Pc,
    res logic Unused only with Jnz and Op1 only without it, ap update Add2
    only with Call and Ap only without it, and the fp update of the
    opcode. *)
Theorem decode_image (i : t) :
  (exists w : Z, decodeInstruction w = Normal i) <-> decodable i = true.
Proof.
  split.
  - intros [w H]. exact (decodeInstruction_decodable w i H).
  - intros H. exists (wordOf i). now apply decodeInstruction_wordOf_decodable.
Qed.

Lemma decode_image_witness :
  exists w : Z, decodeInstruction w = Normal addApInstruction.
Proof.
  apply (proj2 (decode_image addApInstruction)). reflexivity.
Defined.

(** X9.  A decoded instruction has size 2 exactly when its op1 field is 1,
    the immediate that follows the instruction, and size 1 otherwise. *)
Theorem size_of_decoded (w : Z) (i : t) :
  decodeInstruction w = Normal i ->
  (op1RegisterFlag w = 1 /\ size i = 2)
  \/ (op1RegisterFlag w <> 1 /\ size i = 1).
Proof.
  intros H. apply decodeInstruction_Normal_inv in H as (_ & H & _).
  pose proof (op1RegisterFlag_range w) as R.
  apply switchOp1Register_flag in H; [| exact R].
  unfold size. rewrite H.
  destruct (op1Register i); simpl; [left | right | right | right];
    (split; [lia | reflexivity]).
Qed.

Lemma size_of_decoded_witness :
  op1RegisterFlag callRelWord = 1 /\ size callRelInstruction = 2.
Proof.
  destruct (size_of_decoded callRelWord callRelInstruction eq_refl)
    as [H | [E _]]; [exact H | now elim E].
Defined.

(** X10.  The values of Opcode and ResLogic are different single bits: an
    opcode and a res logic share no bit, and the integer [opcode | resLogic]
    tells both. *)
Theorem switchKey_injective (r1 r2 : ResLogic.t) (o1 o2 : Opcode.t) :
  Z.land (Opcode.value o1) (ResLogic.value r1) = 0
  /\ (switchKey r1 o1 = switchKey r2 o2 -> r1 = r2 /\ o1 = o2).
Proof.
  split.
  - destruct r1, o1; reflexivity.
  - destruct r1, o1, r2, o2; vm_compute; intros H;
      first [discriminate H | split; reflexivity].
Qed.

Lemma switchKey_injective_witness :
  ResLogic.Add = ResLogic.Add /\ Opcode.AssertEq = Opcode.AssertEq.
Proof.
  apply (proj2 (switchKey_injective ResLogic.Add ResLogic.Add
                  Opcode.AssertEq Opcode.AssertEq)).
  reflexivity.
Defined.

End DecoderBijection.

(** * Further properties of the bitwise handler *)

Section BlockArithmetic.

Import bitwiseHandler.

(** The remainder [%] is 2 or more on non-negative offsets only. *)
Lemma bitwiseIndex_output (o : Z) :
  2 <= Z.rem o cellsPerBitwise -> 0 <= o /\ 2 <= o mod 5.
Proof. unfold cellsPerBitwise. Z.to_euclidean_division_equations. lia. Qed.

Lemma bitwiseIndex_input (o : Z) :
  o < 0 \/ o mod 5 < 2 -> Z.rem o cellsPerBitwise < 2.
Proof. unfold cellsPerBitwise. Z.to_euclidean_division_equations. lia. Qed.

(** The two input cells of a block are input cells. *)
Lemma blockBase_rem (o : Z) :
  0 <= o ->
  Z.rem (blockBase o) cellsPerBitwise < 2
  /\ Z.rem (blockBase o + 1) cellsPerBitwise < 2.
Proof.
  intros H. unfold blockBase, cellsPerBitwise.
  Z.to_euclidean_division_equations. lia.
Qed.

End BlockArithmetic.

Section HandlerEffects.

Import bitwiseHandler.

Variable Felt : Type.
Variable Felt_new : Z -> option Felt.
Variable toBigInt : Felt -> Z.
Variable JsValue : Type.
Variable Reflect_get : gmap Z (SegmentValue Felt) -> string -> JsValue.
Variable other : OtherKey -> option (SegmentValue Felt).

Local Abbreviation get :=
  (bitwiseHandler.get Felt Felt_new toBigInt JsValue Reflect_get other).

(** A key whose remainder is below 2 is read from the array as it is. *)
Lemma get_direct (target : gmap Z (SegmentValue Felt)) (o : Z) :
  Z.rem o cellsPerBitwise < 2 ->
  get target (Index o) = (Normal (Element (target !! o)), target).
Proof.
  intros H. unfold bitwiseHandler.get, getIndex, inputCellsPerBitwise.
  destruct (Z.ltb_spec (Z.rem o cellsPerBitwise) 2); [reflexivity | lia].
Qed.

(** The array after a read is told by the key and the completion. *)
Lemma get_writeBack (target : gmap Z (SegmentValue Felt)) (prop : Property) :
  snd (get target prop) = writeBack prop (fst (get target prop)) target.
Proof.
  destruct prop as [o | fl fa fb | neg | name |].
  - destruct (Z_lt_dec (Z.rem o cellsPerBitwise) 2) as [Hin | Hout].
    + rewrite get_direct by assumption. cbn [fst snd writeBack].
      destruct (target !! o); [| reflexivity].
      destruct (Z.leb_spec 2 (Z.rem o cellsPerBitwise)); [lia | reflexivity].
    + unfold bitwiseHandler.get, getIndex, inputCellsPerBitwise. cbv zeta.
      destruct (Z.ltb_spec (Z.rem o cellsPerBitwise) 2); [lia |].
      destruct (target !! roundDouble (o - Z.rem o cellsPerBitwise))
        as [[xValue | r] |]; try reflexivity.
      destruct (target !! roundDouble
                  (roundDouble (o - Z.rem o cellsPerBitwise) + 1))
        as [[yValue | r] |]; try reflexivity.
      destruct (switchBitwiseIndex _ _ _).
      * destruct (Felt_new _); [| reflexivity].
        rewrite lookup_insert_eq. cbn [fst snd writeBack].
        destruct (Z.leb_spec 2 (Z.rem o cellsPerBitwise)); [reflexivity | lia].
      * cbn [fst snd writeBack]. destruct (target !! o) eqn:E; [| reflexivity].
        destruct (Z.leb_spec 2 (Z.rem o cellsPerBitwise)); [| reflexivity].
        symmetry. now apply insert_id.
  - unfold bitwiseHandler.get, getFraction. cbv zeta.
    repeat match goal with
           | |- context [if ?c then _ else _] => destruct c
           | |- context [match ?c with _ => _ end] => destruct c
           end; reflexivity.
  - unfold bitwiseHandler.get, getInfinite.
    repeat match goal with
           | |- context [match ?c with _ => _ end] => destruct c
           end; reflexivity.
  - reflexivity.
  - reflexivity.
Qed.

(** A read leaves every cell but the one it reads, and every input cell. *)
Lemma get_other_cell (target : gmap Z (SegmentValue Felt)) (prop : Property) (k : Z) :
  prop <> Index k -> snd (get target prop) !! k = target !! k.
Proof.
  intros Hne. rewrite get_writeBack. unfold writeBack.
  destruct prop as [o | fl fa fb | neg | name |]; try reflexivity.
  destruct (fst (get target (Index o))) as [[[v |] | w] | e]; try reflexivity.
  destruct (2 <=? Z.rem o cellsPerBitwise); [| reflexivity].
  apply lookup_insert_ne. congruence.
Qed.

Lemma get_input_kept (target : gmap Z (SegmentValue Felt)) (prop : Property) (k : Z) :
  Z.rem k cellsPerBitwise < 2 -> snd (get target prop) !! k = target !! k.
Proof.
  intros Hk.
  destruct prop as [o | | | |]; try (apply get_other_cell; discriminate).
  destruct (Z.eq_dec o k) as [-> | Hne].
  - now rewrite get_direct.
  - apply get_other_cell. congruence.
Qed.

(** A read that throws has changed nothing. *)
Lemma get_Throw_kept (target target' : gmap Z (SegmentValue Felt))
    (prop : Property) (e : Exception Felt) :
  get target prop = (Throw e, target') -> target' = target.
Proof.
  intros H. pose proof (get_writeBack target prop) as W.
  rewrite H in W. cbn [fst snd] in W. rewrite W.
  unfold writeBack. destruct prop; reflexivity.
Qed.

(** The completion of a read of an output cell is told by the two input
    cells of the block. *)
Lemma get_same_inputs (t1 t2 : gmap Z (SegmentValue Felt)) (o : Z) :
  0 <= o < 2 ^ 53 -> 2 <= o mod 5 ->
  t1 !! blockBase o = t2 !! blockBase o ->
  t1 !! (blockBase o + 1) = t2 !! (blockBase o + 1) ->
  fst (get t1 (Index o)) = fst (get t2 (Index o)).
Proof.
  intros H0 Hk Ex Ey.
  rewrite !(get_output_cell_path Felt Felt_new toBigInt JsValue Reflect_get other),
    Ex, Ey by assumption.
  destruct (t2 !! blockBase o) as [[xValue | r] |]; try reflexivity.
  destruct (t2 !! (blockBase o + 1)) as [[yValue | r] |]; try reflexivity.
  pose proof (Z.mod_pos_bound o 5 ltac:(lia)) as Hb.
  destruct (switchBitwiseIndex_output (o mod 5) (toBigInt xValue) (toBigInt yValue))
    as [n ->]; [lia |].
  destruct (Felt_new n); reflexivity.
Qed.

(** A read at an integer key below 2^53 completes the same after any other
    read. *)
Lemma get_after_get (target : gmap Z (SegmentValue Felt)) (p : Property) (o : Z) :
  o < 2 ^ 53 ->
  fst (get (snd (get target p)) (Index o)) = fst (get target (Index o)).
Proof.
  intros Hb.
  destruct (Z_lt_dec (Z.rem o cellsPerBitwise) 2) as [Hin | Hout].
  - rewrite !get_direct by assumption. cbn [fst].
    now rewrite get_input_kept.
  - destruct (bitwiseIndex_output o ltac:(lia)) as [H0 Hk].
    destruct (blockBase_rem o H0) as [Bx By].
    apply get_same_inputs; try assumption; try lia; now apply get_input_kept.
Qed.

End HandlerEffects.

Section HandlerExtras.

Import bitwiseHandler.

Variable Felt : Type.
Variable Felt_new : Z -> option Felt.
Variable toBigInt : Felt -> Z.
Variable JsValue : Type.
Variable Reflect_get : gmap Z (SegmentValue Felt) -> string -> JsValue.
Variable other : OtherKey -> option (SegmentValue Felt).

Local Abbreviation get :=
  (bitwiseHandler.get Felt Felt_new toBigInt JsValue Reflect_get other).

(** Two write-backs commute when equal keys come with equal completions. *)
Lemma writeBack_comm (p1 p2 : Property)
    (r1 r2 : Completion (Exception Felt) (Value Felt JsValue))
    (target : gmap Z (SegmentValue Felt)) :
  (p1 = p2 -> r1 = r2) ->
  writeBack p2 r2 (writeBack p1 r1 target)
  = writeBack p1 r1 (writeBack p2 r2 target).
Proof.
  intros Hsame. unfold writeBack.
  destruct p1 as [o1 | | | |]; try reflexivity.
  destruct r1 as [[[v1 |] | m1] | e1]; try reflexivity.
  destruct (2 <=? Z.rem o1 cellsPerBitwise); [| reflexivity].
  destruct p2 as [o2 | | | |]; try reflexivity.
  destruct r2 as [[[v2 |] | m2] | e2]; try reflexivity.
  destruct (2 <=? Z.rem o2 cellsPerBitwise); [| reflexivity].
  destruct (Z.eq_dec o1 o2) as [-> | Hne].
  - specialize (Hsame eq_refl). injection Hsame as ->. reflexivity.
  - apply insert_insert_ne. congruence.
Qed.

(** X11.  A read changes no cell but the one it reads, and it never
    changes a cell under a negative key or an input cell (offset mod 5
    below 2): only output cells are written. *)
Theorem read_changes_only_its_cell
    (target : gmap Z (SegmentValue Felt)) (prop : Property) (k : Z) :
  (prop <> Index k -> snd (get target prop) !! k = target !! k)
  /\ (k < 0 \/ k mod 5 < 2 -> snd (get target prop) !! k = target !! k).
Proof.
  split.
  - apply get_other_cell.
  - intros H. apply get_input_kept. now apply bitwiseIndex_input.
Qed.

(** X12.  A read that throws, whatever its key, leaves the array as it
    was.  At an integer key below 2^53 only the reads of output cells
    throw, and what they throw is UndefinedValue with the offset of an
    unassigned input cell of the block, ExpectedFelt when an input cell
    holds a Relocatable, or the exception of the Felt constructor. *)
Theorem throw_leaves_segment
    (target target' : gmap Z (SegmentValue Felt)) (prop : Property)
    (e : Exception Felt) :
  get target prop = (Throw e, target') ->
  target' = target
  /\ forall o : Z,
       prop = Index o -> o < 2 ^ 53 ->
       0 <= o /\ 2 <= o mod 5
       /\ ((e = UndefinedValue (blockBase o) /\ target !! blockBase o = None)
           \/ (e = UndefinedValue (blockBase o + 1)
               /\ (exists xValue, target !! blockBase o = Some (FeltV xValue))
               /\ target !! (blockBase o + 1) = None)
           \/ (e = ExpectedFelt
               /\ exists r, target !! blockBase o = Some (RelocatableV r)
                            \/ target !! (blockBase o + 1) = Some (RelocatableV r))
           \/ (e = FeltError
               /\ exists xValue yValue n,
                    target !! blockBase o = Some (FeltV xValue)
                    /\ target !! (blockBase o + 1) = Some (FeltV yValue)
                    /\ switchBitwiseIndex (o mod 5)
                         (toBigInt xValue) (toBigInt yValue) = Some n
                    /\ Felt_new n = None)).
Proof.
  intros H. split; [exact (get_Throw_kept _ _ _ _ _ _ _ _ _ _ H) |].
  intros o -> Hb.
  destruct (Z_lt_dec (Z.rem o cellsPerBitwise) 2) as [Hin | Hout].
  { rewrite get_direct in H by assumption. discriminate. }
  destruct (bitwiseIndex_output o ltac:(lia)) as [H0 Hk].
  split; [exact H0 |]. split; [exact Hk |].
  rewrite (get_output_cell_path Felt Felt_new toBigInt JsValue Reflect_get other)
    in H by (try assumption; lia).
  destruct (target !! blockBase o) as [[xValue | r] |] eqn:Ex.
  - destruct (target !! (blockBase o + 1)) as [[yValue | r] |] eqn:Ey.
    + destruct (switchBitwiseIndex _ _ _) as [n |] eqn:En; [| discriminate].
      destruct (Felt_new n) eqn:Ef; [discriminate |].
      injection H as <- <-. right. right. right.
      split; [reflexivity |]. exists xValue, yValue, n. auto.
    + injection H as <- <-. right. right. left. eauto.
    + injection H as <- <-. right. left. eauto.
  - injection H as <- <-. right. right. left. eauto.
  - injection H as <- <-. left. auto.
Qed.

(** X13.  A negative key has a remainder below 2, so the handler takes it
    for an input cell: the read returns what the array holds under the key
    and computes nothing. *)
Theorem negative_key_read_directly
    (target : gmap Z (SegmentValue Felt)) (o : Z) :
  o < 0 ->
  get target (Index o) = (Normal (Element (target !! o)), target).
Proof.
  intros H. apply get_direct. apply bitwiseIndex_input. now left.
Qed.

(** X14.  What the read of an output cell below 2^53 returns or throws
    depends on the two input cells of its block only: on two arrays that
    agree on them the completions are the same, whatever the other cells
    hold. *)
Theorem completion_depends_on_inputs
    (t1 t2 : gmap Z (SegmentValue Felt)) (o : Z) :
  0 <= o < 2 ^ 53 -> 2 <= o mod 5 ->
  t1 !! blockBase o = t2 !! blockBase o ->
  t1 !! (blockBase o + 1) = t2 !! (blockBase o + 1) ->
  fst (get t1 (Index o)) = fst (get t2 (Index o)).
Proof. apply get_same_inputs. Qed.

(** X15.  Reads of cells do not interfere.  A read at an integer key below
    2^53 returns or throws the same whether or not another read, at any
    key, came before it, and two reads at integer keys below 2^53 leave the
    same array in either order. *)
Theorem reads_do_not_interfere
    (target : gmap Z (SegmentValue Felt)) (o1 o2 : Z) :
  o2 < 2 ^ 53 ->
  (forall p1 : Property,
     fst (get (snd (get target p1)) (Index o2)) = fst (get target (Index o2)))
  /\ (o1 < 2 ^ 53 ->
      snd (get (snd (get target (Index o1))) (Index o2))
      = snd (get (snd (get target (Index o2))) (Index o1))).
Proof.
  intros Hb2. split.
  - intros p1. now apply get_after_get.
  - intros Hb1.
    rewrite (get_writeBack _ _ _ _ _ _ (snd (get target (Index o1))) (Index o2)).
    rewrite (get_writeBack _ _ _ _ _ _ (snd (get target (Index o2))) (Index o1)).
    rewrite !get_after_get by assumption. rewrite !get_writeBack.
    apply writeBack_comm. now intros [= ->].
Qed.

End HandlerExtras.

Section OutputIntegers.

Import bitwiseHandler.

(** X16.  The three integers of a block are tied together: OR plus AND is
    x plus y, OR minus AND is XOR.  On non-negative inputs all three are
    non-negative, AND is at most each input, each input is at most OR, and
    OR and XOR stay below every power of two that bounds both inputs. *)
Theorem output_integers (x y a b c : Z) :
  switchBitwiseIndex 2 x y = Some a ->
  switchBitwiseIndex 3 x y = Some b ->
  switchBitwiseIndex 4 x y = Some c ->
  (c + a = x + y /\ c - a = b)
  /\ (0 <= x -> 0 <= y ->
      0 <= a /\ a <= x /\ a <= y /\ x <= c /\ y <= c /\ 0 <= b <= c
      /\ forall n : Z, x < 2 ^ n -> y < 2 ^ n -> c < 2 ^ n).
Proof.
  cbn [switchBitwiseIndex]. intros [= <-] [= <-] [= <-].
  pose proof (Z.add_lor_land x y) as Hadd.
  pose proof (Z.sub_lor_land x y) as Hsub.
  split; [lia |]. intros Hx Hy.
  assert (Ha : 0 <= Z.land x y) by (apply Z.land_nonneg; auto).
  assert (Hb : 0 <= Z.lxor x y) by (apply Z.lxor_nonneg; tauto).
  assert (Hax : Z.land x y <= x).
  { pose proof (Z.sub_land_same_l x y) as E.
    assert (0 <= Z.land x (Z.lnot y)) by (apply Z.land_nonneg; auto). lia. }
  assert (Hay : Z.land x y <= y).
  { pose proof (Z.sub_land_same_l y x) as E. rewrite (Z.land_comm y x) in E.
    assert (0 <= Z.land y (Z.lnot x)) by (apply Z.land_nonneg; auto). lia. }
  repeat split; try lia.
  intros n Hxn Hyn.
  destruct (Z.eq_dec (Z.lor x y) 0) as [E0 | Hpos].
  - rewrite E0. apply Z.lor_eq_0_iff in E0 as [-> _]. exact Hxn.
  - assert (Hc : 0 < Z.lor x y) by lia.
    apply Z.log2_lt_pow2; [exact Hc |].
    rewrite Z.log2_lor by assumption.
    apply Z.max_lub_lt.
    + destruct (Z.eq_dec x 0) as [-> | Nx].
      * destruct (Z.eq_dec y 0) as [-> | Ny]; [now elim Hpos |].
        apply Z.log2_lt_pow2 in Hyn; [| lia].
        change (Z.log2 0) with 0. pose proof (Z.log2_nonneg y). lia.
      * apply Z.log2_lt_pow2; [lia | exact Hxn].
    + destruct (Z.eq_dec y 0) as [-> | Ny].
      * apply Z.log2_lt_pow2 in Hxn; [| lia].
        change (Z.log2 0) with 0. pose proof (Z.log2_nonneg x). lia.
      * apply Z.log2_lt_pow2; [lia | exact Hyn].
Qed.

End OutputIntegers.

(** ** The handler outside the cells below 2^53 *)

(** From 2^53 on the offsets of the input cells are rounded: at the key
    2^53 + 6, of remainder 3, both inputs are read from the cell 2^53 + 4,
    and the XOR of a Felt with itself is returned. *)
Lemma read_beyond_exact_integers :
  roundDouble (2 ^ 53 + 6 - 3) = 2 ^ 53 + 4
  /\ roundDouble (2 ^ 53 + 4 + 1) = 2 ^ 53 + 4
  /\ fst (read farSegment (2 ^ 53 + 6))
     = Normal (Element (Some (FeltV (Felt.mk 0)))).
Proof. repeat split. Qed.

(** The key 2.5 on an empty array goes down the path of the output cells
    and throws for the cell 0; a symbol key throws before any branch. *)
Lemma read_at_other_keys :
  bitwiseHandler.get Felt.t Felt.new Felt.toBigInt unit noReflect noOther
    ∅ (Fraction 2 1 1)
  = (Throw (UndefinedValue 0), ∅)
  /\ bitwiseHandler.get Felt.t Felt.new Felt.toBigInt unit noReflect noOther
       scenarioSegment Symbol
     = (Throw TypeError, scenarioSegment).
Proof. split; reflexivity. Qed.

(** ** The handler on more segments *)

Lemma read_changes_only_its_cell_witness :
  snd (read secondBlockSegment 7) !! 5 = Some (FeltV (Felt.mk 5))
  /\ snd (read secondBlockSegment 7) !! (-1) = Some (FeltV (Felt.mk 7)).
Proof.
  split.
  - apply (proj1 (read_changes_only_its_cell Felt.t Felt.new Felt.toBigInt
                    unit noReflect noOther secondBlockSegment (Index 7) 5)).
    discriminate.
  - apply (proj2 (read_changes_only_its_cell Felt.t Felt.new Felt.toBigInt
                    unit noReflect noOther secondBlockSegment (Index 7) (-1))).
    left. reflexivity.
Defined.

Lemma throw_leaves_segment_witness :
  0 <= 2 /\ 2 <= 2 mod 5
  /\ ((@UndefinedValue Felt.t 1 = UndefinedValue (bitwiseHandler.blockBase 2)
       /\ feltThenHole !! bitwiseHandler.blockBase 2 = None)
      \/ (@UndefinedValue Felt.t 1 = UndefinedValue (bitwiseHandler.blockBase 2 + 1)
          /\ (exists xValue,
                feltThenHole !! bitwiseHandler.blockBase 2 = Some (FeltV xValue))
          /\ feltThenHole !! (bitwiseHandler.blockBase 2 + 1) = None)
      \/ (@UndefinedValue Felt.t 1 = ExpectedFelt
          /\ exists r,
               feltThenHole !! bitwiseHandler.blockBase 2 = Some (RelocatableV r)
               \/ feltThenHole !! (bitwiseHandler.blockBase 2 + 1)
                  = Some (RelocatableV r))
      \/ (@UndefinedValue Felt.t 1 = FeltError
          /\ exists xValue yValue n,
               feltThenHole !! bitwiseHandler.blockBase 2 = Some (FeltV xValue)
               /\ feltThenHole !! (bitwiseHandler.blockBase 2 + 1)
                  = Some (FeltV yValue)
               /\ bitwiseHandler.switchBitwiseIndex (2 mod 5)
                    (Felt.toBigInt xValue) (Felt.toBigInt yValue) = Some n
               /\ Felt.new n = None)).
Proof.
  apply (proj2 (throw_leaves_segment Felt.t Felt.new Felt.toBigInt unit
                  noReflect noOther feltThenHole feltThenHole (Index 2)
                  (UndefinedValue 1) eq_refl) 2).
  - reflexivity.
  - reflexivity.
Defined.

Lemma negative_key_read_directly_witness :
  read secondBlockSegment (-1)
  = (Normal (Element (Some (FeltV (Felt.mk 7)))), secondBlockSegment).
Proof.
  apply (negative_key_read_directly Felt.t Felt.new Felt.toBigInt unit
           noReflect noOther secondBlockSegment (-1)).
  reflexivity.
Defined.

Lemma completion_depends_on_inputs_witness :
  fst (read scenarioSegment 2) = fst (read overwrittenSegment 2).
Proof.
  apply (completion_depends_on_inputs Felt.t Felt.new Felt.toBigInt unit
           noReflect noOther scenarioSegment overwrittenSegment 2).
  - split; [discriminate | reflexivity].
  - discriminate.
  - reflexivity.
  - reflexivity.
Defined.

Lemma reads_do_not_interfere_witness :
  fst (read (snd (read scenarioSegment 2)) 3) = fst (read scenarioSegment 3)
  /\ snd (read (snd (read scenarioSegment 2)) 3)
     = snd (read (snd (read scenarioSegment 3)) 2).
Proof.
  destruct (reads_do_not_interfere Felt.t Felt.new Felt.toBigInt unit
              noReflect noOther scenarioSegment 2 3 eq_refl) as [H1 H2].
  split; [exact (H1 (Index 2)) | exact (H2 eq_refl)].
Defined.

Lemma output_integers_witness : 14 + 8 = 12 + 10 /\ 14 - 8 = 6.
Proof.
  apply (proj1 (output_integers 12 10 8 6 14 eq_refl eq_refl eq_refl)).
Defined.
